(** * POP3 test server of zmuduo: a shallow embedding of
      [example/pop3_test/server.py] and the properties of its session
      state machine, deferred deletion and commit.

    The embedding follows the Python source function by function.  A
    [Pop3Session] object becomes a record that is threaded through a small
    state-and-exception monad, which also logs the lines handed to
    [send_line]; the mailbox directory becomes a finite map from file names
    to file contents.

    Text and bytes.  Rocq's [string] is a sequence of 8-bit characters and is
    used here both for Python [bytes] (file contents, message lines) and for
    Python [str].  Client traffic is taken to be 7-bit text, on which
    [bytes.decode(errors='ignore')] is the identity; message contents are
    arbitrary bytes, and the strict [bytes.decode()] applied to them before
    they are sent is modelled by a UTF-8 well-formedness check. *)

From stdpp Require Import base numbers list strings pretty sorting gmap.
From Stdlib Require Import Ascii.

Local Open Scope Z_scope.

(** ** Python primitives used by the server *)

Module Py.

Definition CR : ascii := "013"%char.
Definition LF : ascii := "010"%char.
Definition CRLF : string := String CR (String LF "").

Definition len_str (s : string) : Z := Z.of_nat (String.length s).
Definition len {A} (l : list A) : Z := Z.of_nat (length l).

(** [str.isspace] on the 7-bit range: TAB, LF, VT, FF, CR, FS, GS, RS, US
    and the space. *)
Definition isspace (c : ascii) : bool :=
  let n := N_of_ascii c in
  ((9 <=? n) && (n <=? 13) || (28 <=? n) && (n <=? 31) || (n =? 32))%N.

Fixpoint lstrip (s : string) : string :=
  match s with
  | String c s' => if isspace c then lstrip s' else s
  | "" => ""
  end.

(** [s.strip()] *)
Definition strip (s : string) : string :=
  String.rev (lstrip (String.rev (lstrip s))).

(** [s.split()]: the maximal runs of non-blank characters.  [cur] holds the
    current run, reversed. *)
Fixpoint split_go (cur : string) (s : string) : list string :=
  match s with
  | "" => if decide (cur = "") then [] else [String.rev cur]
  | String c s' =>
      if isspace c
      then (if decide (cur = "") then [] else [String.rev cur]) ++ split_go "" s'
      else split_go (String c cur) s'
  end.
Definition split (s : string) : list string := split_go "" s.

Definition upper_char (c : ascii) : ascii :=
  let n := N_of_ascii c in
  if ((97 <=? n) && (n <=? 122))%N then ascii_of_N (n - 32) else c.

(** [s.upper()] *)
Fixpoint upper (s : string) : string :=
  match s with
  | "" => ""
  | String c s' => String (upper_char c) (upper s')
  end.

(** [s.endswith(suffix)] *)
Definition endswith (s suffix : string) : bool :=
  let n := String.length s in
  let k := String.length suffix in
  ((k <=? n)%nat && String.eqb (String.substring (n - k) k s) suffix).

(** [int(s)] on a token without blanks: an optional sign, then decimal
    digits, single underscores allowed between digits.  [None] stands for
    [ValueError]. *)
Definition digit (c : ascii) : option Z :=
  let n := N_of_ascii c in
  if ((48 <=? n) && (n <=? 57))%N then Some (Z.of_N (n - 48)) else None.

Fixpoint int_digits (acc : Z) (after_digit : bool) (s : string) : option Z :=
  match s with
  | "" => if after_digit then Some acc else None
  | String c s' =>
      match digit c with
      | Some d => int_digits (10 * acc + d) true s'
      | None =>
          if Ascii.eqb c "_"%char && after_digit
          then int_digits acc false s'
          else None
      end
  end.

Definition int (s : string) : option Z :=
  match s with
  | String "-"%char s' => Z.opp <$> int_digits 0 false s'
  | String "+"%char s' => int_digits 0 false s'
  | _ => int_digits 0 false s
  end.

(** [b.splitlines()] on bytes: lines end at LF, CR or CR LF; the line
    breaks are dropped and there is no empty last line.  [cur] holds the
    current line, reversed; [after_cr] tells that the previous byte was a
    CR, so that an LF right after it belongs to the same line break. *)
Fixpoint splitlines_go (cur : string) (after_cr : bool) (s : string)
  : list string :=
  match s with
  | "" => if decide (cur = "") then [] else [String.rev cur]
  | String c s' =>
      if Ascii.eqb c LF then
        if after_cr then splitlines_go "" false s'
        else String.rev cur :: splitlines_go "" false s'
      else if Ascii.eqb c CR then
        String.rev cur :: splitlines_go "" true s'
      else splitlines_go (String c cur) false s'
  end.
Definition splitlines (b : string) : list string := splitlines_go "" false b.

(** Well-formed UTF-8 (the byte ranges of the Unicode standard): what the
    strict [bytes.decode()] accepts. *)
Definition between (lo hi n : N) : bool := ((lo <=? n) && (n <=? hi))%N.

Fixpoint utf8_go (l : list N) : bool :=
  match l with
  | [] => true
  | b0 :: l1 =>
      if (b0 <=? 127)%N then utf8_go l1
      else if between 194 223 b0 then
        match l1 with
        | b1 :: l2 => between 128 191 b1 && utf8_go l2
        | _ => false
        end
      else if between 224 239 b0 then
        match l1 with
        | b1 :: b2 :: l3 =>
            (if (b0 =? 224)%N then between 160 191 b1
             else if (b0 =? 237)%N then between 128 159 b1
             else between 128 191 b1)
            && between 128 191 b2 && utf8_go l3
        | _ => false
        end
      else if between 240 244 b0 then
        match l1 with
        | b1 :: b2 :: b3 :: l4 =>
            (if (b0 =? 240)%N then between 144 191 b1
             else if (b0 =? 244)%N then between 128 143 b1
             else between 128 191 b1)
            && between 128 191 b2 && between 128 191 b3 && utf8_go l4
        | _ => false
        end
      else false
  end.

Fixpoint byte_values (s : string) : list N :=
  match s with
  | "" => []
  | String c s' => N_of_ascii c :: byte_values s'
  end.

Definition utf8_valid (b : string) : bool :=
  utf8_go (byte_values b).

(** [b.decode()]: the text of [b], or [None] for [UnicodeDecodeError].
    Encoding the text again, as [send_line] does, gives [b] back, so the
    text is represented by its bytes. *)
Definition decode (b : string) : option string :=
  if utf8_valid b then Some b else None.

(** [enumerate(l)] *)
Fixpoint enumerate_from {A} (i : Z) (l : list A) : list (Z * A) :=
  match l with
  | [] => []
  | x :: l' => (i, x) :: enumerate_from (i + 1) l'
  end.
Definition enumerate {A} (l : list A) : list (Z * A) := enumerate_from 0 l.

(** [sum(l)] *)
Definition sum (l : list Z) : Z := foldl Z.add 0 l.

(** [l[:n]] *)
Definition slice_to {A} (n : Z) (l : list A) : list A :=
  if 0 <=? n then take (Z.to_nat n) l
  else take (Z.to_nat (Z.max 0 (len l + n))) l.

(** [f"{z}"] and [f"{z:04d}"] *)
Definition fmt (z : Z) : string := pretty z.

Fixpoint zeros (n : nat) : string :=
  match n with O => "" | S n => String "0"%char (zeros n) end.

Definition fmt_04d (z : Z) : string :=
  let digits := pretty (Z.abs z) in
  let sign := if z <? 0 then "-" else "" in
  let width := (String.length sign + String.length digits)%nat in
  sign +:+ zeros (4 - width) +:+ digits.

End Py.

(** ** Effects: state, exceptions and a log

    A computation over a state [St] returns a value or raises, leaves a new
    state either way (Python objects are mutated in place, so what was done
    before a [raise] stays done), and logs strings: the lines given to
    [send_line] for a session, the paths given to [os.remove] for the
    mailbox directory. *)

Inductive exn :=
  IndexError | ValueError | UnicodeDecodeError | OSError | FileNotFoundError.

Inductive result (A : Type) :=
  | Ok (a : A)
  | Raise (e : exn).
Arguments Ok {A} a.
Arguments Raise {A} e.

Definition Eff (St A : Type) : Type := St → result A * St * list string.

#[export] Instance eff_ret {St} : MRet (Eff St) := λ A a s, (Ok a, s, []).

#[export] Instance eff_bind {St} : MBind (Eff St) := λ A B f m s,
  match m s with
  | (Ok a, s1, out1) => let '(r, s2, out2) := f a s1 in (r, s2, out1 ++ out2)
  | (Raise e, s1, out1) => (Raise e, s1, out1)
  end.

Definition raise {St A} (e : exn) : Eff St A := λ s, (Raise e, s, []).
Definition get {St} : Eff St St := λ s, (Ok s, s, []).
Definition modify {St} (f : St → St) : Eff St unit := λ s, (Ok (), f s, []).
Definition skip {St} : Eff St unit := mret ().

(** [for x in l: body(x)] *)
Fixpoint for_each {St A} (l : list A) (body : A → Eff St unit) : Eff St unit :=
  match l with
  | [] => skip
  | x :: l' => body x ;; for_each l' body
  end.

(** [l[i]] for [0 <= i], [int(tok)] and [b.decode()], with their exceptions *)
Definition getitem {St A} (l : list A) (i : Z) : Eff St A :=
  match l !! Z.to_nat i with
  | Some x => mret x
  | None => raise IndexError
  end.

Definition int_of {St} (tok : string) : Eff St Z :=
  match Py.int tok with
  | Some z => mret z
  | None => raise ValueError
  end.

Definition decode_of {St} (b : string) : Eff St string :=
  match Py.decode b with
  | Some t => mret t
  | None => raise UnicodeDecodeError
  end.

(** ** The session object *)

Definition USERNAME : string := "user".
Definition PASSWORD : string := "pass".

(** The two values that [self.state] takes. *)
Inductive State := AUTH | TRANSACTION.

#[export] Instance State_eq_dec : EqDecision State.
Proof. solve_decision. Defined.

(** [conn_closed] is the one thing the session needs from its socket: after
    [conn.close()] every [sendall] and [recv] on it raises [OSError]. *)
Record Pop3Session := {
  conn_closed : bool;
  state : State;
  username : string;
  messages : list string;
  deleted : gset Z
}.

Definition set_username (u : string) (s : Pop3Session) : Pop3Session :=
  {| conn_closed := conn_closed s; state := state s; username := u;
     messages := messages s; deleted := deleted s |}.
Definition set_state (st : State) (s : Pop3Session) : Pop3Session :=
  {| conn_closed := conn_closed s; state := st; username := username s;
     messages := messages s; deleted := deleted s |}.
Definition set_deleted (d : gset Z) (s : Pop3Session) : Pop3Session :=
  {| conn_closed := conn_closed s; state := state s; username := username s;
     messages := messages s; deleted := d |}.
Definition close (s : Pop3Session) : Pop3Session :=
  {| conn_closed := true; state := state s; username := username s;
     messages := messages s; deleted := deleted s |}.

(** The mailbox directory [MAILBOX_DIR]: file name to content.
    [os.path.join(MAILBOX_DIR, name)] is the entry [name] of this map. *)
Abbreviation store := (gmap string string).

(** [sorted(os.listdir(MAILBOX_DIR))]: the names in the order of [str],
    which compares character by character. *)
Definition sorted_listdir (fs : store) : list string :=
  merge_sort String.le (elements (dom fs)).

Definition load_messages (fs : store) : list string :=
  omap (λ fname, if Py.endswith fname ".txt" then fs !! fname else None)
       (sorted_listdir fs).

(** [Pop3Session.__init__] *)
Definition new_session (fs : store) : Pop3Session :=
  {| conn_closed := false; state := AUTH; username := "";
     messages := load_messages fs; deleted := ∅ |}.

Abbreviation M := (Eff Pop3Session).

Definition send_line (line : string) : M unit := λ s,
  if conn_closed s then (Raise OSError, s, []) else (Ok (), s, [line]).

Definition conn_close : M unit := modify close.

Definition handle_auth (cmd : string) (args : list string) : M unit :=
  if decide (cmd = "USER") then
    if match args with a0 :: _ => bool_decide (a0 = USERNAME) | [] => false end
    then
      send_line "+OK User accepted" ;;
      a0 ← getitem args 0;
      modify (set_username a0)
    else send_line "-ERR Invalid user"
  else if decide (cmd = "PASS") then
    s ← get;
    if match args with
       | a0 :: _ => bool_decide (username s = USERNAME)
                    && bool_decide (a0 = PASSWORD)
       | [] => false
       end
    then
      send_line "+OK Authenticated" ;;
      modify (set_state TRANSACTION)
    else send_line "-ERR Invalid password"
  else if decide (cmd = "QUIT") then
    send_line "+OK Goodbye" ;;
    conn_close
  else send_line "-ERR Command not allowed".

(** [0 <= index < len(self.messages) and index not in self.deleted] *)
Definition in_range (s : Pop3Session) (index : Z) : bool :=
  bool_decide (0 ≤ index < Py.len (messages s)).
Definition live (s : Pop3Session) (index : Z) : bool :=
  in_range s index && bool_decide (index ∉ deleted s).

(** The loop of TOP that sorts the lines into [header] and [body]; the
    state of the loop is [(header, body, sep_found)]. *)
Definition top_step (acc : list string * list string * bool) (line : string)
  : list string * list string * bool :=
  let '(header, body, sep_found) := acc in
  let sep_found :=
    if negb sep_found && bool_decide (line = "") then true else sep_found in
  if negb sep_found then (header ++ [line], body, sep_found)
  else (header, body ++ [line], sep_found).

Definition top_split (lines : list string) : list string * list string :=
  let '(header, body, _) := foldl top_step ([], [], false) lines in
  (header, body).

Definition handle_transaction (cmd : string) (args : list string) : M unit :=
  if decide (cmd = "STAT") then
    s ← get;
    let count := Py.len (messages s) - Z.of_nat (size (deleted s)) in
    let size :=
      Py.sum ((λ im, Py.len_str im.2) <$>
              filter (λ im, im.1 ∉ deleted s) (Py.enumerate (messages s))) in
    send_line ("+OK " +:+ Py.fmt count +:+ " " +:+ Py.fmt size)
  else if decide (cmd = "LIST") then
    match args with
    | [] =>
        s ← get;
        send_line ("+OK " +:+ Py.fmt (Py.len (messages s)) +:+ " messages") ;;
        for_each (Py.enumerate (messages s)) (λ im,
          if decide (im.1 ∉ deleted s)
          then send_line (Py.fmt (im.1 + 1) +:+ " " +:+ Py.fmt (Py.len_str im.2))
          else skip) ;;
        send_line "."
    | _ =>
        a0 ← getitem args 0;
        n ← int_of a0;
        let index := n - 1 in
        s ← get;
        if live s index then
          m ← getitem (messages s) index;
          send_line ("+OK " +:+ Py.fmt (index + 1) +:+ " "
                     +:+ Py.fmt (Py.len_str m))
        else send_line "-ERR No such message"
    end
  else if decide (cmd = "RETR") then
    a0 ← getitem args 0;
    n ← int_of a0;
    let index := n - 1 in
    s ← get;
    if live s index then
      m ← getitem (messages s) index;
      send_line ("+OK " +:+ Py.fmt (Py.len_str m) +:+ " octets") ;;
      for_each (Py.splitlines m) (λ line,
        text ← decode_of line; send_line text) ;;
      send_line "."
    else send_line "-ERR No such message"
  else if decide (cmd = "DELE") then
    a0 ← getitem args 0;
    n ← int_of a0;
    let index := n - 1 in
    s ← get;
    if in_range s index then
      modify (set_deleted ({[index]} ∪ deleted s)) ;;
      send_line ("+OK Message " +:+ Py.fmt (index + 1)
                 +:+ " marked for deletion")
    else send_line "-ERR No such message"
  else if decide (cmd = "NOOP") then
    send_line "+OK"
  else if decide (cmd = "RSET") then
    modify (set_deleted ∅) ;;
    send_line "+OK Deletion marks cleared"
  else if decide (cmd = "UIDL") then
    match args with
    | [] =>
        s ← get;
        send_line "+OK unique-id listing follows" ;;
        for_each (Py.enumerate (messages s)) (λ im,
          if decide (im.1 ∉ deleted s)
          then
            let uid := "UID" +:+ Py.fmt_04d (im.1 + 1) in
            send_line (Py.fmt (im.1 + 1) +:+ " " +:+ uid)
          else skip) ;;
        send_line "."
    | _ =>
        a0 ← getitem args 0;
        n ← int_of a0;
        let index := n - 1 in
        s ← get;
        if live s index then
          send_line ("+OK " +:+ Py.fmt (index + 1) +:+ " UID"
                     +:+ Py.fmt_04d (index + 1))
        else send_line "-ERR No such message"
    end
  else if decide (cmd = "TOP") then
    a0 ← getitem args 0;
    i ← int_of a0;
    let index := i - 1 in
    a1 ← getitem args 1;
    n ← int_of a1;
    s ← get;
    if live s index then
      m ← getitem (messages s) index;
      let '(header, body) := top_split (Py.splitlines m) in
      send_line "+OK Top of message follows" ;;
      for_each header (λ line, text ← decode_of line; send_line text) ;;
      for_each (Py.slice_to n body) (λ line,
        text ← decode_of line; send_line text) ;;
      send_line "."
    else send_line "-ERR No such message"
  else if decide (cmd = "QUIT") then
    send_line "+OK Goodbye" ;;
    conn_close
  else send_line "-ERR Command not supported".

(** ** Commit: [cleanup_deleted] *)

(** [f"{i + 1}.txt"], the file that commit takes for the snapshot index [i] *)
Definition file_of (i : Z) : string := Py.fmt (i + 1) +:+ ".txt".

(** [sorted(self.deleted, reverse=True)] *)
Definition sorted_reverse (d : gset Z) : list Z :=
  merge_sort Z.ge (elements d).

Definition os_path_exists (path : string) : Eff store bool :=
  fs ← get; mret (bool_decide (is_Some (fs !! path))).

(** [os.remove(path)], logged *)
Definition os_remove (path : string) : Eff store unit := λ fs,
  match fs !! path with
  | Some _ => (Ok (), delete path fs, [path])
  | None => (Raise FileNotFoundError, fs, [])
  end.

Definition cleanup_deleted (d : gset Z) : Eff store unit :=
  for_each (sorted_reverse d) (λ i,
    let path := file_of i in
    found ← os_path_exists path;
    if found : bool then os_remove path else skip).

(** ** The session loop: [handle] *)

(** The complete lines of [buffer], without their CR LF, and what is left
    after the last CR LF: the effect on [buffer] of the loop
    [while '\r\n' in buffer: line, buffer = buffer.split('\r\n', 1)].
    [cur] holds the current line, reversed. *)
Fixpoint frame_go (cur : string) (buffer : string) : list string * string :=
  match buffer with
  | "" => ([], String.rev cur)
  | String c rest =>
      match rest with
      | String c' rest' =>
          if Ascii.eqb c Py.CR && Ascii.eqb c' Py.LF
          then let '(lines, residue) := frame_go "" rest' in
               (String.rev cur :: lines, residue)
          else frame_go (String c cur) rest
      | "" => frame_go (String c cur) rest
      end
  end.
Definition frame (buffer : string) : list string * string := frame_go "" buffer.

(** The body of that loop for one line. *)
Definition command (line : string) : M unit :=
  let line := Py.strip line in
  if decide (line = "") then skip
  else
    let parts := Py.split line in
    p0 ← getitem parts 0;
    let cmd := Py.upper p0 in
    let args := drop 1 parts in
    s ← get;
    match state s with
    | AUTH => handle_auth cmd args
    | TRANSACTION => handle_transaction cmd args
    end.

(** What [conn.recv(1024)] does, one entry per call: it returns bytes (none
    at all when the peer has closed) or raises.  When the list is used up
    the peer has closed. *)
Inductive recv :=
  | Data (data : string)
  | Error.

(** The [while True] loop of [handle]; it is left by [break] on an empty
    read and on any exception, among them the [OSError] of [recv] on a
    socket that QUIT has closed. *)
Fixpoint recv_loop (script : list recv) (buffer : string) (s : Pop3Session)
  : Pop3Session * list string :=
  if conn_closed s then (s, [])
  else
    match script with
    | [] => (s, [])
    | Error :: _ => (s, [])
    | Data data :: script' =>
        if decide (data = "") then (s, [])
        else
          let '(lines, buffer') := frame (buffer +:+ data) in
          match for_each lines command s with
          | (Ok _, s', out) =>
              let '(s'', out') := recv_loop script' buffer' s' in
              (s'', out ++ out')
          | (Raise _, s', out) => (s', out)
          end
    end.

(** The outcome of one run of [handle]: whether it returned, the session
    object at the end, the lines sent, the mailbox directory at the end and
    the paths removed by the commits, one list per call of
    [cleanup_deleted]. *)
Record Run := {
  returned : result unit;
  session : Pop3Session;
  sent : list string;
  mailbox : store;
  commits : list (list string)
}.

Definition handle (script : list recv) (s : Pop3Session) (fs : store) : Run :=
  match send_line "+OK POP3 server ready" s with
  | (Raise e, s0, out0) =>
      {| returned := Raise e; session := s0; sent := out0; mailbox := fs;
         commits := [] |}
  | (Ok _, s0, out0) =>
      let '(s1, out1) := recv_loop script "" s0 in
      let s2 := close s1 in
      let '(r, fs', removed) := cleanup_deleted (deleted s2) fs in
      {| returned := r; session := s2; sent := out0 ++ out1; mailbox := fs';
         commits := [removed] |}
  end.

(** A connection accepted while the mailbox directory is [fs]:
    [session = Pop3Session(conn, addr); session.handle()]. *)
Definition serve (fs : store) (script : list recv) : Run :=
  handle script (new_session fs) fs.

(** ** Vocabulary of the specification *)

(** The phase of a session as the specification names it.  The source has
    no [Closed] value for [self.state]: a session is closed once its
    connection is. *)
Inductive Phase := Auth | Transaction | Closed.

Definition phase (s : Pop3Session) : Phase :=
  if conn_closed s then Closed
  else match state s with AUTH => Auth | TRANSACTION => Transaction end.

(** The three components of an outcome. *)
Definition result_of {St A} (o : result A * St * list string) : result A := o.1.1.
Definition after {St A} (o : result A * St * list string) : St := o.1.2.
Definition output {St A} (o : result A * St * list string) : list string := o.2.

(** The snapshot entries that carry no deletion mark, in snapshot order,
    read off by index. *)
Definition unmarked (s : Pop3Session) : list string :=
  omap (λ i : nat,
          if decide (Z.of_nat i ∈ deleted s) then None else messages s !! i)
       (seq 0 (length (messages s))).

(** The sum of the sizes of a list of messages. *)
Definition octets (l : list string) : Z :=
  foldr (λ m acc, Py.len_str m + acc) 0 l.

(** A line of a multi-line listing is about the snapshot index [i] when it
    starts with the message number [i + 1] and a space; a single-line
    answer is about [i] when that comes after [+OK]. *)
Definition lists (i : Z) (line : string) : Prop :=
  ∃ rest, line = Py.fmt (i + 1) +:+ " " +:+ rest.
Definition answers_for (i : Z) (line : string) : Prop :=
  ∃ rest, line = "+OK " +:+ Py.fmt (i + 1) +:+ " " +:+ rest.

(** The character [c] does not occur in [s]. *)
Fixpoint lacks (c : ascii) (s : string) : Prop :=
  match s with
  | "" => True
  | String c' s' => c' ≠ c ∧ lacks c s'
  end.

(** A character that is no decimal digit and no minus sign, as the space
    and the dot. *)
Definition separator (c : ascii) : Prop :=
  Py.digit c = None ∧ c ≠ "-"%char.

(** Every deletion mark is an index into the snapshot. *)
Definition marks_valid (s : Pop3Session) : Prop :=
  ∀ i, i ∈ deleted s → 0 ≤ i < Py.len (messages s).

(** What a handler may do to a session: it keeps the snapshot, and it keeps
    the marks valid. *)
Definition safe_step (s s' : Pop3Session) : Prop :=
  messages s' = messages s ∧ (marks_valid s → marks_valid s').

Definition safe {A} (m : M A) : Prop := ∀ s, safe_step s (after (m s)).

(** The session objects that [handle] goes through on the connection
    accepted while the mailbox directory is [fs]: the new session, and the
    session after each further line, whether the line's command returned or
    raised. *)
Inductive reachable (fs : store) : Pop3Session → Prop :=
  | reachable_new : reachable fs (new_session fs)
  | reachable_command (s : Pop3Session) (line : string) :
      reachable fs s → reachable fs (after (command line s)).

(** The positions of the arguments that [handle_transaction] reads as
    numbers: the index of RETR and DELE, the index and the count of TOP, the
    index of LIST and UIDL when there is an argument at all. *)
Definition numeric_args (cmd : string) (args : list string) : list nat :=
  if decide (cmd = "RETR" ∨ cmd = "DELE") then [0%nat]
  else if decide (cmd = "TOP") then [0%nat; 1%nat]
  else if decide (cmd = "LIST" ∨ cmd = "UIDL") then
    match args with [] => [] | _ => [0%nat] end
  else [].

(** The number at position [i], if there is an argument and it parses. *)
Definition number_at (args : list string) (i : nat) : option Z :=
  args !! i ≫= Py.int.

(** Some numeric argument of the command is absent or does not parse. *)
Definition unparsable (cmd : string) (args : list string) : Prop :=
  ∃ i, i ∈ numeric_args cmd args ∧ number_at args i = None.

(** Lines as the client sends them, each with its CR LF. *)
Definition crlf_lines (l : list string) : string :=
  foldr (λ line acc, line +:+ Py.CRLF +:+ acc) "" l.

(** The header block of a message: its lines up to the first empty line,
    that line not included; the body is what remains, so that it starts with
    the empty line when there is one. *)
Fixpoint header_block (lines : list string) : list string :=
  match lines with
  | [] => []
  | line :: lines' =>
      if decide (line = "") then [] else line :: header_block lines'
  end.

Definition body_lines (lines : list string) : list string :=
  drop (length (header_block lines)) lines.

(** A mailbox directory with ten mails, named as the source says:
    [1.txt], [2.txt] and so on. *)
Definition ten_mails : store :=
  list_to_map
    ((λ i : Z, (Py.fmt i +:+ ".txt", "mail " +:+ Py.fmt i)) <$>
     [1; 2; 3; 4; 5; 6; 7; 8; 9; 10]).

(** ** Vocabulary for the rest of the session code *)

(** A computation keeps a relation between the session before and after,
    whether it returns or raises. *)
Definition keeps (R : relation Pop3Session) {A} (m : M A) : Prop :=
  ∀ s, R s (after (m s)).

(** What no Transaction command touches: the phase variable, the pending
    user name, the snapshot; and a closed connection stays closed. *)
Definition same_login (s s' : Pop3Session) : Prop :=
  state s' = state s ∧ username s' = username s ∧
  messages s' = messages s ∧
  (conn_closed s = true → conn_closed s' = true).

(** A session that has not logged in holds no mark, and a session that has
    logged in holds the configured user name. *)
Definition login_invariant (s : Pop3Session) : Prop :=
  (state s = AUTH → deleted s = ∅) ∧
  (state s = TRANSACTION → username s = USERNAME).

(** On a closed connection a computation sends nothing, and the connection
    stays closed. *)
Definition quiet {A} (m : M A) : Prop :=
  ∀ s, conn_closed s = true →
       output (m s) = [] ∧ conn_closed (after (m s)) = true.

(** No CR LF inside [s]. *)
Fixpoint no_crlf (s : string) : Prop :=
  match s with
  | "" => True
  | String c rest =>
      match rest with
      | String c' _ => ¬ (c = Py.CR ∧ c' = Py.LF)
      | "" => True
      end ∧ no_crlf rest
  end.

(** Framing without the accumulator: the character [c] goes in front of the
    first line, or of what is left when there is no line. *)
Definition cons_first (c : ascii) (framed : list string * string)
  : list string * string :=
  match framed with
  | ([], residue) => ([], String c residue)
  | (line :: lines, residue) => (String c line :: lines, residue)
  end.

Fixpoint lines_of (buffer : string) : list string * string :=
  match buffer with
  | "" => ([], "")
  | String c rest =>
      match rest with
      | String c' rest' =>
          if Ascii.eqb c Py.CR && Ascii.eqb c' Py.LF
          then let '(lines, residue) := lines_of rest' in ("" :: lines, residue)
          else cons_first c (lines_of rest)
      | "" => cons_first c (lines_of rest)
      end
  end.

(** The string [prefix] goes in front of the first line, or of what is
    left when there is no line. *)
Definition prepend (prefix : string) (framed : list string * string)
  : list string * string :=
  match framed with
  | ([], residue) => ([], prefix +:+ residue)
  | (line :: lines, residue) => ((prefix +:+ line) :: lines, residue)
  end.

(** The first line of a framing, or what is left when there is no line. *)
Definition first_piece (framed : list string * string) : string :=
  match framed with
  | ([], residue) => residue
  | (line :: _, _) => line
  end.

(** The names of the mail files of a directory, in the order in which
    [load_messages] reads them. *)
Definition mail_files (fs : store) : list string :=
  filter (λ fname, Py.endswith fname ".txt" = true) (sorted_listdir fs).

(** The directory holds exactly [1.txt], ..., [n.txt]. *)
Definition numbered (n : nat) (fs : store) : Prop :=
  dom fs = list_to_set ((λ i : nat, file_of (Z.of_nat i)) <$> seq 0 n).

(** [f"UID{i + 1:04d}"], the unique-id of the message at snapshot index [i] *)
Definition uid (i : Z) : string := "UID" +:+ Py.fmt_04d (i + 1).

(** The snapshot indices without a mark, ascending. *)
Definition unmarked_indices (s : Pop3Session) : list Z :=
  filter (λ i, i ∉ deleted s) (seqZ 0 (Py.len (messages s))).

(** The size in bytes of the message at snapshot index [i]. *)
Definition size_of (s : Pop3Session) (i : Z) : Z :=
  Py.len_str (default "" (messages s !! Z.to_nat i)).

(** A status line: it starts with [+OK] or with [-ERR]. *)
Definition is_status (line : string) : bool :=
  match line with
  | String "+" (String "O" (String "K" _)) => true
  | String "-" (String "E" (String "R" (String "R" _))) => true
  | _ => false
  end.

(** On an open connection a computation sends nothing and leaves the
    connection open. *)
Definition silent {A} (m : M A) : Prop :=
  ∀ s, conn_closed s = false →
       output (m s) = [] ∧ conn_closed (after (m s)) = false.

(** On an open connection, if the computation returns, it has sent a
    status line first. *)
Definition answers {A} (m : M A) : Prop :=
  ∀ s, conn_closed s = false →
       match m s with
       | (Ok _, _, out) => ∃ status rest,
                             out = status :: rest ∧ is_status status = true
       | (Raise _, _, _) => True
       end.

(** ** Reasoning about effects *)

Lemma bind_eval {St A B} (m : Eff St A) (f : A → Eff St B) (s : St) :
  (m ≫= f) s =
  match m s with
  | (Ok a, s1, out1) => let '(r, s2, out2) := f a s1 in (r, s2, out1 ++ out2)
  | (Raise e, s1, out1) => (Raise e, s1, out1)
  end.
Proof. reflexivity. Qed.

Lemma bind_ok {St A B} (m : Eff St A) (f : A → Eff St B) s a s1 out1 :
  m s = (Ok a, s1, out1) →
  (m ≫= f) s = (let '(r, s2, out2) := f a s1 in (r, s2, out1 ++ out2)).
Proof. intros H. rewrite bind_eval, H. reflexivity. Qed.

Lemma bind_raise {St A B} (m : Eff St A) (f : A → Eff St B) s e s1 out1 :
  m s = (Raise e, s1, out1) → (m ≫= f) s = (Raise e, s1, out1).
Proof. intros H. rewrite bind_eval, H. reflexivity. Qed.

Lemma get_bind {St B} (f : St → Eff St B) (s : St) : (get ≫= f) s = f s s.
Proof. rewrite bind_eval. simpl. destruct (f s s) as [[r s2] out2]. reflexivity. Qed.

Lemma send_line_open line s :
  conn_closed s = false → send_line line s = (Ok (), s, [line]).
Proof. intros H. unfold send_line. rewrite H. reflexivity. Qed.

Lemma send_line_closed line s :
  conn_closed s = true → send_line line s = (Raise OSError, s, []).
Proof. intros H. unfold send_line. rewrite H. reflexivity. Qed.

Lemma phase_Transaction s :
  phase s = Transaction ↔ conn_closed s = false ∧ state s = TRANSACTION.
Proof. unfold phase. destruct (conn_closed s), (state s); split; intros; intuition congruence. Qed.

Lemma phase_Auth s :
  phase s = Auth ↔ conn_closed s = false ∧ state s = AUTH.
Proof. unfold phase. destruct (conn_closed s), (state s); split; intros; intuition congruence. Qed.

(** A loop whose body only sends: every round returns, the session is the
    same at the end, and the lines come out in order. *)
Lemma for_each_sends {A} (l : list A) (body : A → M unit)
    (lines : A → list string) (s : Pop3Session) :
  (∀ x, x ∈ l → body x s = (Ok (), s, lines x)) →
  for_each l body s = (Ok (), s, concat (lines <$> l)).
Proof.
  induction l as [|x l IH]; intros Hbody; [reflexivity|].
  simpl. rewrite (bind_ok _ _ _ _ _ _ (Hbody x (list_elem_of_here x l))).
  rewrite IH by (intros y Hy; apply Hbody; by right). reflexivity.
Qed.

(** ** STAT *)

Lemma enumerate_from_unmarked (d : gset Z) (all l : list string) (k : nat) :
  (∀ j, l !! j = all !! (k + j)%nat) →
  (λ im : Z * string, im.2) <$>
    filter (λ im : Z * string, im.1 ∉ d) (Py.enumerate_from (Z.of_nat k) l)
  = omap (λ i : nat, if decide (Z.of_nat i ∈ d) then None else all !! i)
         (seq k (length l)).
Proof.
  revert k. induction l as [|x l IH]; intros k Hl; [reflexivity|].
  assert (Hx : all !! k = Some x).
  { specialize (Hl 0%nat). rewrite Nat.add_0_r in Hl. by rewrite <- Hl. }
  assert (Htl : ∀ j, l !! j = all !! (S k + j)%nat).
  { intros j. specialize (Hl (S j)). simpl in Hl. rewrite Hl. f_equal. lia. }
  specialize (IH (S k) Htl).
  cbn [Py.enumerate_from length seq omap list_omap].
  replace (Z.of_nat k + 1) with (Z.of_nat (S k)) by lia.
  rewrite filter_cons. cbn [fst].
  destruct (decide (Z.of_nat k ∈ d)) as [Hin|Hout].
  - rewrite decide_False by (intros Hn; by apply Hn). exact IH.
  - rewrite decide_True by done. rewrite Hx. cbn. f_equal. exact IH.
Qed.

Lemma sum_sizes (l : list string) (acc : Z) :
  foldl Z.add acc (Py.len_str <$> l) = acc + octets l.
Proof.
  revert acc. induction l as [|m l IH]; intros acc; simpl; [lia|].
  rewrite IH. lia.
Qed.

(** C5.  In the Transaction phase STAT answers one line, [+OK count size]:
    [count] is the number of messages of the snapshot minus the number of
    deletion marks, and [size] is the sum of the sizes of exactly the
    snapshot entries that carry no mark.  The session is left as it was. *)
Theorem stat_reports_unmarked (s : Pop3Session) (args : list string) :
  phase s = Transaction →
  handle_transaction "STAT" args s =
    (Ok (), s,
     ["+OK " +:+ Py.fmt (Py.len (messages s) - Z.of_nat (size (deleted s)))
      +:+ " " +:+ Py.fmt (octets (unmarked s))]).
Proof.
  intros [Hopen _]%phase_Transaction.
  unfold handle_transaction. simpl. rewrite get_bind, send_line_open by done.
  do 4 f_equal. unfold Py.sum, unmarked, Py.enumerate.
  rewrite <- (enumerate_from_unmarked (deleted s) (messages s) (messages s) 0)
    by done.
  rewrite (list_fmap_compose (λ im : Z * string, im.2) Py.len_str).
  rewrite sum_sizes, Z.add_0_l. reflexivity.
Qed.

Lemma stat_reports_unmarked_witness :
  let s := {| conn_closed := false; state := TRANSACTION; username := "user";
              messages := ["Hello"; "Hi"]; deleted := {[0]} |} in
  handle_transaction "STAT" [] s = (Ok (), s, ["+OK 1 2"]).
Proof.
  intros s. rewrite (stat_reports_unmarked s []) by reflexivity.
  vm_compute. reflexivity.
Defined.

(** ** Decimal numbers in replies *)

Lemma app_cons (c : ascii) (s t : string) : String c s +:+ t = String c (s +:+ t).
Proof. reflexivity. Qed.

Lemma app_nil (t : string) : "" +:+ t = t.
Proof. reflexivity. Qed.

Lemma lacks_app (c : ascii) (s t : string) :
  lacks c s → lacks c t → lacks c (s +:+ t).
Proof.
  induction s as [|c' s IH]; intros Hs Ht; [exact Ht|].
  rewrite app_cons. destruct Hs as [Hc Hs]. split; [exact Hc|auto].
Qed.

Lemma pretty_N_char_digit (x : N) : is_Some (Py.digit (pretty_N_char x)).
Proof. unfold pretty_N_char. repeat case_match; by eexists. Qed.

Lemma pretty_N_char_separator (c : ascii) (x : N) :
  separator c → pretty_N_char x ≠ c.
Proof.
  intros [Hc _] <-. destruct (pretty_N_char_digit x) as [d Hd]. congruence.
Qed.

Lemma pretty_N_go_lacks (c : ascii) (x : N) (s : string) :
  separator c → lacks c s → lacks c (pretty_N_go x s).
Proof.
  intros Hc. revert s. induction (N.lt_wf_0 x) as [x _ IH]; intros s Hs.
  destruct (decide (x = 0)%N) as [->|Hx]; [by rewrite pretty_N_go_0|].
  rewrite pretty_N_go_step by lia. apply IH.
  - apply N.div_lt; lia.
  - split; [by apply pretty_N_char_separator|exact Hs].
Qed.

Lemma pretty_N_lacks (c : ascii) (x : N) : separator c → lacks c (pretty x).
Proof.
  intros Hc. unfold pretty, pretty_N. case_decide.
  - split; [|done]. by apply (pretty_N_char_separator c 0).
  - by apply pretty_N_go_lacks.
Qed.

Lemma fmt_lacks (c : ascii) (z : Z) : separator c → lacks c (Py.fmt z).
Proof.
  intros Hc. unfold Py.fmt, pretty, pretty_Z. destruct z as [|p|p].
  - split; [|done]. by apply (pretty_N_char_separator c 0).
  - by apply pretty_N_lacks.
  - apply lacks_app; [|by apply pretty_N_lacks].
    split; [|done]. destruct Hc as [_ Hc]. congruence.
Qed.

Lemma separated (c : ascii) (s1 s2 r1 r2 : string) :
  lacks c s1 → lacks c s2 →
  s1 +:+ String c r1 = s2 +:+ String c r2 → s1 = s2.
Proof.
  revert s2. induction s1 as [|c1 s1 IH]; intros [|c2 s2] H1 H2 Heq.
  - reflexivity.
  - rewrite app_nil, app_cons in Heq. injection Heq as Hc _.
    destruct H2 as [H2 _]. by destruct H2.
  - rewrite app_nil, app_cons in Heq. injection Heq as Hc _.
    destruct H1 as [H1 _]. by destruct H1.
  - rewrite !app_cons in Heq. injection Heq as Hc Heq.
    destruct H1 as [_ H1], H2 as [_ H2]. f_equal; [exact Hc|].
    by apply IH.
Qed.

Lemma space_separator : separator " "%char.
Proof. by split. Qed.

Lemma dot_separator : separator "."%char.
Proof. by split. Qed.

Lemma fmt_space_inj (a b : Z) (r1 r2 : string) :
  Py.fmt a +:+ " " +:+ r1 = Py.fmt b +:+ " " +:+ r2 → a = b.
Proof.
  intros Heq.
  apply (separated " "%char) in Heq; [|apply fmt_lacks, space_separator..].
  unfold Py.fmt in Heq. by apply (inj pretty) in Heq.
Qed.

Lemma lists_inj (i j : Z) (rest : string) :
  lists i (Py.fmt (j + 1) +:+ " " +:+ rest) → i = j.
Proof. intros [rest' Heq]. apply fmt_space_inj in Heq. lia. Qed.

Lemma answers_for_inj (i j : Z) (rest : string) :
  answers_for i ("+OK " +:+ Py.fmt (j + 1) +:+ " " +:+ rest) → i = j.
Proof.
  intros [rest' Heq]. apply (inj (String.app "+OK ")) in Heq.
  apply fmt_space_inj in Heq. lia.
Qed.

(** ** LIST and UIDL *)

Lemma concat_guarded {A B} (P : A → Prop) `{∀ x, Decision (P x)}
    (f : A → B) (l : list A) :
  concat ((λ x, if decide (P x) then [f x] else []) <$> l) = f <$> filter P l.
Proof.
  induction l as [|x l IH]; [reflexivity|].
  rewrite filter_cons, fmap_cons. cbn [concat]. rewrite IH.
  destruct (decide (P x)); reflexivity.
Qed.

(** The shape of both multi-line listings: a status line, one line for each
    snapshot entry without a mark, and the terminator. *)
Lemma listing_eval (s : Pop3Session) (status : string)
    (entry : Z * string → string) :
  conn_closed s = false →
  (send_line status ;;
   for_each (Py.enumerate (messages s)) (λ im,
     if decide (im.1 ∉ deleted s) then send_line (entry im) else skip) ;;
   send_line ".") s
  = (Ok (), s,
     status :: (entry <$> filter (λ im : Z * string, im.1 ∉ deleted s)
                                 (Py.enumerate (messages s))) ++ ["."]).
Proof.
  intros Hopen.
  rewrite (bind_ok _ _ _ _ _ _ (send_line_open _ _ Hopen)).
  assert (Hloop := for_each_sends (Py.enumerate (messages s))
    (λ im, if decide (im.1 ∉ deleted s) then send_line (entry im) else skip)
    (λ im, if decide (im.1 ∉ deleted s) then [entry im] else []) s).
  rewrite (bind_ok _ _ _ _ _ _ (Hloop ltac:(
    intros im _; simpl; destruct (decide (im.1 ∉ deleted s));
    [by apply send_line_open|reflexivity]))); clear Hloop.
  rewrite send_line_open, concat_guarded by done. reflexivity.
Qed.

Lemma list_all_eval (s : Pop3Session) :
  conn_closed s = false →
  handle_transaction "LIST" [] s
  = (Ok (), s,
     ("+OK " +:+ Py.fmt (Py.len (messages s)) +:+ " messages")
     :: ((λ im : Z * string,
            Py.fmt (im.1 + 1) +:+ " " +:+ Py.fmt (Py.len_str im.2)) <$>
         filter (λ im : Z * string, im.1 ∉ deleted s)
                (Py.enumerate (messages s))) ++ ["."]).
Proof.
  intros Hopen. unfold handle_transaction. simpl. rewrite get_bind.
  by apply (listing_eval s _
    (λ im, Py.fmt (im.1 + 1) +:+ " " +:+ Py.fmt (Py.len_str im.2))).
Qed.

Lemma uidl_all_eval (s : Pop3Session) :
  conn_closed s = false →
  handle_transaction "UIDL" [] s
  = (Ok (), s,
     "+OK unique-id listing follows"
     :: ((λ im : Z * string,
            Py.fmt (im.1 + 1) +:+ " " +:+ "UID" +:+ Py.fmt_04d (im.1 + 1)) <$>
         filter (λ im : Z * string, im.1 ∉ deleted s)
                (Py.enumerate (messages s))) ++ ["."]).
Proof.
  intros Hopen. unfold handle_transaction. simpl. rewrite get_bind.
  by apply (listing_eval s _
    (λ im, Py.fmt (im.1 + 1) +:+ " " +:+ "UID" +:+ Py.fmt_04d (im.1 + 1))).
Qed.

Lemma getitem_lookup {St A} (l : list A) (i : Z) (x : A) (s : St) :
  l !! Z.to_nat i = Some x → getitem l i s = (Ok x, s, []).
Proof. intros H. unfold getitem. rewrite H. reflexivity. Qed.

Lemma int_of_Some {St} (tok : string) (n : Z) (s : St) :
  Py.int tok = Some n → int_of tok s = (Ok n, s, []).
Proof. intros H. unfold int_of. rewrite H. reflexivity. Qed.

Lemma int_of_None {St} (tok : string) (s : St) :
  Py.int tok = None → int_of tok s = (Raise ValueError, s, []).
Proof. intros H. unfold int_of. rewrite H. reflexivity. Qed.

Lemma live_lookup (s : Pop3Session) (index : Z) :
  live s index = true → is_Some (messages s !! Z.to_nat index).
Proof.
  unfold live, in_range, Py.len. intros [Hr _]%andb_prop.
  apply bool_decide_eq_true in Hr. apply lookup_lt_is_Some. lia.
Qed.

(** The single-index form of LIST and of UIDL, once the argument has been
    read as the number [n]. *)
Lemma list_one_eval (s : Pop3Session) (a0 : string) (args : list string) (n : Z) :
  conn_closed s = false → Py.int a0 = Some n →
  handle_transaction "LIST" (a0 :: args) s
  = (Ok (), s,
     [if live s (n - 1)
      then "+OK " +:+ Py.fmt (n - 1 + 1) +:+ " "
           +:+ Py.fmt (Py.len_str (default "" (messages s !! Z.to_nat (n - 1))))
      else "-ERR No such message"]).
Proof.
  intros Hopen Hn. unfold handle_transaction. simpl.
  rewrite (bind_ok _ _ _ _ _ _ (getitem_lookup (a0 :: args) 0 a0 s eq_refl)).
  rewrite (bind_ok _ _ _ _ _ _ (int_of_Some a0 n s Hn)).
  rewrite get_bind.
  destruct (live s (n - 1)) eqn:Hlive.
  - destruct (live_lookup _ _ Hlive) as [m Hm].
    rewrite (bind_ok _ _ _ _ _ _ (getitem_lookup _ _ m s Hm)).
    rewrite send_line_open, Hm by done. reflexivity.
  - rewrite send_line_open by done. reflexivity.
Qed.

Lemma uidl_one_eval (s : Pop3Session) (a0 : string) (args : list string) (n : Z) :
  conn_closed s = false → Py.int a0 = Some n →
  handle_transaction "UIDL" (a0 :: args) s
  = (Ok (), s,
     [if live s (n - 1)
      then "+OK " +:+ Py.fmt (n - 1 + 1) +:+ " UID" +:+ Py.fmt_04d (n - 1 + 1)
      else "-ERR No such message"]).
Proof.
  intros Hopen Hn. unfold handle_transaction. simpl.
  rewrite (bind_ok _ _ _ _ _ _ (getitem_lookup (a0 :: args) 0 a0 s eq_refl)).
  rewrite (bind_ok _ _ _ _ _ _ (int_of_Some a0 n s Hn)).
  rewrite get_bind.
  destruct (live s (n - 1)) eqn:Hlive; rewrite send_line_open by done;
    reflexivity.
Qed.

(** A numeric argument that does not parse: nothing is sent. *)
Lemma one_arg_unparsable (s : Pop3Session) (cmd a0 : string) (args : list string) :
  cmd ∈ ["RETR"; "DELE"; "TOP"; "LIST"; "UIDL"] → Py.int a0 = None →
  handle_transaction cmd (a0 :: args) s = (Raise ValueError, s, []).
Proof.
  intros Hcmd Hn.
  repeat (apply elem_of_cons in Hcmd as [->|Hcmd]);
    [..|by apply elem_of_nil in Hcmd];
    unfold handle_transaction; simpl;
    rewrite (bind_ok _ _ _ _ _ _ (getitem_lookup (a0 :: args) 0 a0 s eq_refl));
    rewrite (bind_raise _ _ _ _ _ _ (int_of_None a0 s Hn)); reflexivity.
Qed.

Lemma elem_of_listing (s : Pop3Session) (entry : Z * string → string) (line : string) :
  line ∈ entry <$> filter (λ im : Z * string, im.1 ∉ deleted s)
                          (Py.enumerate (messages s)) →
  ∃ im, (im.1 ∉ deleted s) ∧ line = entry im.
Proof.
  intros (im & -> & Him)%list_elem_of_fmap.
  apply list_elem_of_filter in Him as [Hlive _]. by exists im.
Qed.

(** C7.  In the Transaction phase, for LIST and for UIDL: the form without
    argument answers a status line, entry lines and the terminator, and no
    entry line is about a marked index; the form with an index answers
    [-ERR No such message] when the index is marked or out of range; and
    whatever the arguments, no line of the answer is a success reply about a
    marked index. *)
Theorem listings_hide_marked (s : Pop3Session) (cmd : string) :
  phase s = Transaction → cmd = "LIST" ∨ cmd = "UIDL" →
  (∃ status entries,
     handle_transaction cmd [] s
     = (Ok (), s, ("+OK " +:+ status) :: entries ++ ["."]) ∧
     ∀ i line, i ∈ deleted s → line ∈ entries → ¬ lists i line) ∧
  (∀ a0 args n,
     Py.int a0 = Some n →
     (n - 1 ∈ deleted s) ∨ ¬ (0 ≤ n - 1 < Py.len (messages s)) →
     handle_transaction cmd (a0 :: args) s
     = (Ok (), s, ["-ERR No such message"])) ∧
  (∀ a0 args i line,
     i ∈ deleted s →
     line ∈ output (handle_transaction cmd (a0 :: args) s) →
     ¬ answers_for i line).
Proof.
  intros [Hopen _]%phase_Transaction Hcmd.
  assert (Hdead : ∀ n, (n - 1 ∈ deleted s) ∨ ¬ (0 ≤ n - 1 < Py.len (messages s)) →
                       live s (n - 1) = false).
  { intros n Hn. unfold live, in_range. apply andb_false_iff.
    destruct Hn as [Hn|Hn].
    - right. apply bool_decide_eq_false. by intros Hout.
    - left. by apply bool_decide_eq_false. }
  assert (Hlive : ∀ i, i ∈ deleted s → live s i = false).
  { intros i Hi. replace i with (i + 1 - 1) by lia. apply Hdead. left.
    by replace (i + 1 - 1) with i by lia. }
  split; [|split].
  - destruct Hcmd as [-> | ->].
    + eexists _, _. split; [by apply list_all_eval|].
      intros i line Hi (im & Him & ->)%elem_of_listing Hlists.
      apply lists_inj in Hlists. by subst i.
    + eexists _, _. split; [by apply uidl_all_eval|].
      intros i line Hi (im & Him & ->)%elem_of_listing Hlists.
      apply lists_inj in Hlists. by subst i.
  - intros a0 args n Hn Hbad. apply Hdead in Hbad.
    destruct Hcmd as [-> | ->].
    + rewrite (list_one_eval s a0 args n), Hbad by done. reflexivity.
    + rewrite (uidl_one_eval s a0 args n), Hbad by done. reflexivity.
  - intros a0 args i line Hi Hline Hans.
    destruct (Py.int a0) as [n|] eqn:Hn.
    + assert (Hout : line =
        if live s (n - 1)
        then "+OK " +:+ Py.fmt (n - 1 + 1) +:+ " " +:+
             (if decide (cmd = "LIST")
              then Py.fmt (Py.len_str (default "" (messages s !! Z.to_nat (n - 1))))
              else "UID" +:+ Py.fmt_04d (n - 1 + 1))
        else "-ERR No such message").
      { destruct Hcmd as [-> | ->].
        - rewrite (list_one_eval s a0 args n) in Hline by done.
          apply list_elem_of_singleton in Hline. exact Hline.
        - rewrite (uidl_one_eval s a0 args n) in Hline by done.
          apply list_elem_of_singleton in Hline. exact Hline. }
      destruct (live s (n - 1)) eqn:Hl.
      * subst line. apply answers_for_inj in Hans. subst i.
        rewrite (Hlive _ Hi) in Hl. discriminate.
      * subst line. destruct Hans as [rest Hrest]. discriminate.
    + rewrite (one_arg_unparsable s cmd a0 args) in Hline.
      * by apply elem_of_nil in Hline.
      * destruct Hcmd as [-> | ->]; set_solver.
      * exact Hn.
Qed.

Lemma listings_hide_marked_witness :
  let s := {| conn_closed := false; state := TRANSACTION; username := "user";
              messages := ["Hello"; "Hi"]; deleted := {[0]} |} in
  handle_transaction "LIST" [] s = (Ok (), s, ["+OK 2 messages"; "2 2"; "."]) ∧
  handle_transaction "LIST" ["1"] s = (Ok (), s, ["-ERR No such message"]) ∧
  handle_transaction "UIDL" ["3"] s = (Ok (), s, ["-ERR No such message"]) ∧
  ¬ answers_for 0 "+OK 2 UID0002".
Proof.
  intros s.
  assert (Hs : phase s = Transaction) by reflexivity.
  split; [vm_compute; reflexivity|]. split; [|split].
  - apply (proj1 (proj2 (listings_hide_marked s "LIST" Hs (or_introl eq_refl)))
             "1" [] 1); [reflexivity|].
    left. simpl. set_solver.
  - apply (proj1 (proj2 (listings_hide_marked s "UIDL" Hs (or_intror eq_refl)))
             "3" [] 3); [reflexivity|].
    right. unfold Py.len. simpl. lia.
  - apply (proj2 (proj2 (listings_hide_marked s "UIDL" Hs (or_intror eq_refl)))
             "2" [] 0 "+OK 2 UID0002").
    + simpl. set_solver.
    + vm_compute. apply list_elem_of_here.
Defined.

(** ** The marks stay inside the snapshot *)

Lemma safe_step_refl (s : Pop3Session) : safe_step s s.
Proof. by split. Qed.

Lemma safe_step_trans (s1 s2 s3 : Pop3Session) :
  safe_step s1 s2 → safe_step s2 s3 → safe_step s1 s3.
Proof. intros [H1 H1'] [H2 H2']. split; [congruence|auto]. Qed.

Lemma after_bind {A B} (m : M A) (f : A → M B) (s : Pop3Session) :
  after ((m ≫= f) s) =
  match result_of (m s) with
  | Ok a => after (f a (after (m s)))
  | Raise _ => after (m s)
  end.
Proof.
  rewrite bind_eval. destruct (m s) as [[[a|e] s1] out1]; [|reflexivity].
  unfold after, result_of. simpl. by destruct (f a s1) as [[r s2] out2].
Qed.

Lemma safe_bind {A B} (m : M A) (f : A → M B) :
  safe m → (∀ a, safe (f a)) → safe (m ≫= f).
Proof.
  intros Hm Hf s. rewrite after_bind. destruct (result_of (m s)); [|apply Hm].
  eapply safe_step_trans; [apply Hm|apply Hf].
Qed.

Lemma safe_get_bind {B} (f : Pop3Session → M B) :
  (∀ s, safe_step s (after (f s s))) → safe (get ≫= f).
Proof. intros Hf s. rewrite get_bind. apply Hf. Qed.

Lemma safe_ret {A} (a : A) : safe (mret a : M A).
Proof. intros s. apply safe_step_refl. Qed.

Lemma safe_skip : safe (skip : M unit).
Proof. apply safe_ret. Qed.

Lemma safe_raise {A} (e : exn) : safe (raise e : M A).
Proof. intros s. apply safe_step_refl. Qed.

Lemma safe_send_line (line : string) : safe (send_line line).
Proof. intros s. unfold send_line. destruct (conn_closed s); apply safe_step_refl. Qed.

Lemma safe_getitem {A} (l : list A) (i : Z) : safe (getitem l i : M A).
Proof. unfold getitem. destruct (l !! Z.to_nat i); [apply safe_ret|apply safe_raise]. Qed.

Lemma safe_int_of (tok : string) : safe (int_of tok : M Z).
Proof. unfold int_of. destruct (Py.int tok); [apply safe_ret|apply safe_raise]. Qed.

Lemma safe_decode_of (b : string) : safe (decode_of b : M string).
Proof. unfold decode_of. destruct (Py.decode b); [apply safe_ret|apply safe_raise]. Qed.

Lemma safe_for_each {A} (l : list A) (body : A → M unit) :
  (∀ x, safe (body x)) → safe (for_each l body).
Proof.
  intros Hbody. induction l as [|x l IH]; [apply safe_skip|].
  simpl. apply safe_bind; [apply Hbody|intros _; exact IH].
Qed.

Lemma safe_set_username (u : string) : safe (modify (set_username u)).
Proof. intros s. by split. Qed.

Lemma safe_set_state (st : State) : safe (modify (set_state st)).
Proof. intros s. by split. Qed.

Lemma safe_conn_close : safe conn_close.
Proof. intros s. by split. Qed.

(** RSET: no mark is left. *)
Lemma safe_clear : safe (modify (set_deleted ∅)).
Proof. intros s. split; [reflexivity|]. intros _ i Hi. by apply elem_of_empty in Hi. Qed.

(** DELE: the new mark has passed the range check. *)
Lemma safe_mark (s0 : Pop3Session) (index : Z) :
  in_range s0 index = true →
  safe_step s0 (after (modify (set_deleted ({[index]} ∪ deleted s0)) s0)).
Proof.
  intros Hr%bool_decide_eq_true. split; [reflexivity|].
  intros Hvalid i [->%elem_of_singleton|Hi]%elem_of_union; [exact Hr|].
  by apply Hvalid.
Qed.

Create HintDb safe.
#[export] Hint Resolve safe_ret safe_skip safe_raise safe_send_line
  safe_getitem safe_int_of safe_decode_of safe_set_username safe_set_state
  safe_conn_close safe_clear : safe.

Ltac safe_auto :=
  repeat first
    [ progress auto with safe
    | apply safe_bind; [|intros ?]
    | apply safe_for_each; intros ?
    | apply safe_get_bind; intros ?
    | match goal with
      | |- safe (if ?b then _ else _) => destruct b
      | |- safe (match ?x with _ => _ end) => destruct x
      | |- safe (let '(_, _) := ?x in _) => destruct x
      end ].

Lemma handle_auth_safe (cmd : string) (args : list string) :
  safe (handle_auth cmd args).
Proof.
  unfold handle_auth. repeat case_decide; safe_auto.
Qed.

Lemma dele_body_safe (s : Pop3Session) (index : Z) (l1 l2 : string) :
  safe_step s (after (
    (if in_range s index
     then modify (set_deleted ({[index]} ∪ deleted s)) ;; send_line l1
     else send_line l2) s)).
Proof.
  destruct (in_range s index) eqn:Hr; [|apply safe_send_line].
  rewrite after_bind. simpl.
  eapply safe_step_trans; [by apply safe_mark|apply safe_send_line].
Qed.

Lemma handle_transaction_safe (cmd : string) (args : list string) :
  safe (handle_transaction cmd args).
Proof.
  unfold handle_transaction. repeat case_decide.
  4:{ apply safe_bind; [auto with safe|intros a0].
      apply safe_bind; [auto with safe|intros n].
      apply safe_get_bind; intros s. apply dele_body_safe. }
  all: safe_auto.
Qed.

Lemma command_safe (line : string) : safe (command line).
Proof.
  unfold command. case_decide; [apply safe_skip|].
  apply safe_bind; [auto with safe|intros p0].
  apply safe_get_bind; intros s.
  destruct (state s); [apply handle_auth_safe|apply handle_transaction_safe].
Qed.

Lemma new_session_valid (fs : store) : marks_valid (new_session fs).
Proof. intros i Hi. by apply elem_of_empty in Hi. Qed.

Lemma for_each_reachable (fs : store) (lines : list string) (s : Pop3Session) :
  reachable fs s → reachable fs (after (for_each lines command s)).
Proof.
  revert s. induction lines as [|line lines IH]; intros s Hs; [exact Hs|].
  simpl. rewrite after_bind.
  destruct (result_of (command line s)); [apply IH|]; by constructor.
Qed.

Lemma recv_loop_reachable (fs : store) (script : list recv) (buffer : string)
    (s : Pop3Session) :
  reachable fs s → reachable fs (recv_loop script buffer s).1.
Proof.
  revert buffer s. induction script as [|[data|] script IH]; intros buffer s Hs;
    simpl; destruct (conn_closed s); try exact Hs.
  case_decide; [exact Hs|].
  destruct (frame (buffer +:+ data)) as [lines buffer'].
  assert (Hlines := for_each_reachable fs lines s Hs).
  destruct (for_each lines command s) as [[[[]|e] s'] out]; [|exact Hlines].
  specialize (IH buffer' s' Hlines).
  by destruct (recv_loop script buffer' s') as [s'' out'].
Qed.

(** The session object at the end of [handle] is a reachable one, closed. *)
Lemma serve_reachable (fs : store) (script : list recv) :
  ∃ s, reachable fs s ∧ session (serve fs script) = close s.
Proof.
  unfold serve, handle. simpl.
  assert (H := recv_loop_reachable fs script "" (new_session fs)
                 (reachable_new fs)).
  destruct (recv_loop script "" (new_session fs)) as [s1 out1].
  destruct (cleanup_deleted _ fs) as [[r fs'] removed]. by exists s1.
Qed.

(** C8.  Every deletion mark is an index into the snapshot,
    [0 <= i < len(messages)]: both handlers keep it so from any session
    object, whatever the command and its arguments and whether they return
    or raise, DELE because it marks after its range check and RSET because
    it leaves no mark; hence it holds of every session object that [handle]
    goes through, and the snapshot there is the one loaded at the start. *)
Theorem marks_stay_valid :
  (∀ s cmd args,
     marks_valid s →
     marks_valid (after (handle_auth cmd args s)) ∧
     marks_valid (after (handle_transaction cmd args s))) ∧
  (∀ fs s,
     reachable fs s → marks_valid s ∧ messages s = load_messages fs) ∧
  (∀ fs script, marks_valid (session (serve fs script))).
Proof.
  assert (Hreachable : ∀ fs s,
    reachable fs s → marks_valid s ∧ messages s = load_messages fs).
  { intros fs s Hreach. induction Hreach as [|s line _ [IH1 IH2]].
    - split; [apply new_session_valid|reflexivity].
    - destruct (command_safe line s) as [Hm Hv]. split; [auto|congruence]. }
  split; [|split; [exact Hreachable|]].
  - intros s cmd args Hs. split.
    + by apply (handle_auth_safe cmd args s).
    + by apply (handle_transaction_safe cmd args s).
  - intros fs script. destruct (serve_reachable fs script) as (s & Hs & ->).
    by apply Hreachable in Hs as [Hs _].
Qed.

Lemma marks_stay_valid_witness :
  let s := {| conn_closed := false; state := TRANSACTION; username := "user";
              messages := ["Hello"; "Hi"]; deleted := {[0]} |} in
  let fs : store := {["1.txt" := "Hello"]} in
  marks_valid s ∧
  marks_valid (after (handle_transaction "DELE" ["2"] s)) ∧
  reachable fs (after (command "USER user" (new_session fs))) ∧
  marks_valid (after (command "USER user" (new_session fs))).
Proof.
  intros s fs.
  assert (Hs : marks_valid s).
  { intros i Hi. simpl in Hi. apply elem_of_singleton in Hi as ->.
    unfold Py.len. simpl. lia. }
  assert (Hr : reachable fs (after (command "USER user" (new_session fs)))).
  { apply reachable_command, reachable_new. }
  split; [exact Hs|]. split; [|split; [exact Hr|]].
  - exact (proj2 (proj1 marks_stay_valid s "DELE" ["2"] Hs)).
  - exact (proj1 (proj1 (proj2 marks_stay_valid) fs _ Hr)).
Defined.

Lemma length_unmarked (s : Pop3Session) :
  length (unmarked s)
  = length (filter (λ i : nat, Z.of_nat i ∉ deleted s)
                   (seq 0 (length (messages s)))).
Proof.
  unfold unmarked.
  assert (H : ∀ i, i ∈ seq 0 (length (messages s)) → is_Some (messages s !! i)).
  { intros i Hi%elem_of_seq. apply lookup_lt_is_Some. lia. }
  induction (seq 0 (length (messages s))) as [|i l IH]; [reflexivity|].
  rewrite filter_cons. cbn [omap list_omap].
  specialize (IH (λ j Hj, H j (list_elem_of_further _ _ _ Hj))).
  destruct (decide (Z.of_nat i ∈ deleted s)) as [Hin|Hout].
  - rewrite decide_False by (intros Hn; by apply Hn). exact IH.
  - rewrite decide_True by done.
    destruct (H i (list_elem_of_here _ _)) as [m ->]. simpl. by rewrite IH.
Qed.

Lemma length_marked (s : Pop3Session) :
  marks_valid s →
  length (filter (λ i : nat, Z.of_nat i ∈ deleted s)
                 (seq 0 (length (messages s))))
  = size (deleted s).
Proof.
  intros Hvalid. unfold size, set_size. simpl.
  rewrite <- (length_fmap Z.of_nat). apply Permutation_length.
  apply NoDup_Permutation.
  - apply NoDup_fmap; [apply _|]. apply NoDup_filter, NoDup_seq.
  - apply NoDup_elements.
  - intros x. rewrite elem_of_elements, list_elem_of_fmap. split.
    + intros (i & -> & Hi). by apply list_elem_of_filter in Hi as [Hi _].
    + intros Hx. exists (Z.to_nat x). specialize (Hvalid x Hx).
      unfold Py.len in Hvalid. split; [lia|].
      apply list_elem_of_filter. split.
      * by replace (Z.of_nat (Z.to_nat x)) with x by lia.
      * apply elem_of_seq. lia.
Qed.

(** With valid marks, the count that STAT reports is the number of
    snapshot entries without a mark. *)
Lemma stat_count_unmarked (s : Pop3Session) :
  marks_valid s →
  Py.len (messages s) - Z.of_nat (size (deleted s))
  = Z.of_nat (length (unmarked s)).
Proof.
  intros Hvalid. rewrite <- (length_marked s Hvalid), length_unmarked.
  assert (H := filter_app_complement
    (λ i : nat, Z.of_nat i ∈ deleted s) (seq 0 (length (messages s)))).
  apply Permutation_length in H. rewrite length_app, length_seq in H.
  unfold Py.len. lia.
Qed.

(** ** Commit *)

Lemma file_of_inj (i j : Z) : file_of i = file_of j → i = j.
Proof.
  unfold file_of. intros Heq.
  apply (separated "."%char) in Heq; [|apply fmt_lacks, dot_separator..].
  unfold Py.fmt in Heq. apply (inj pretty) in Heq. lia.
Qed.

#[local] Instance Z_ge_trans : Transitive Z.ge.
Proof. intros x y z. lia. Qed.
#[local] Instance Z_ge_total : Total Z.ge.
Proof. intros x y. lia. Qed.

Lemma sorted_reverse_elem (d : gset Z) (i : Z) : i ∈ sorted_reverse d ↔ i ∈ d.
Proof.
  unfold sorted_reverse. rewrite merge_sort_Permutation. apply elem_of_elements.
Qed.

Lemma sorted_reverse_NoDup (d : gset Z) : NoDup (sorted_reverse d).
Proof.
  unfold sorted_reverse. rewrite merge_sort_Permutation. apply NoDup_elements.
Qed.

Lemma sorted_reverse_descending (d : gset Z) :
  StronglySorted Z.gt (sorted_reverse d).
Proof.
  assert (Hs : StronglySorted Z.ge (sorted_reverse d)).
  { unfold sorted_reverse. apply (StronglySorted_merge_sort Z.ge). }
  assert (Hn := sorted_reverse_NoDup d).
  induction Hs as [|x l Hl IH Hx]; [constructor|].
  apply NoDup_cons in Hn as [Hx' Hn]. constructor; [by apply IH|].
  apply Forall_forall. intros y Hy.
  rewrite Forall_forall in Hx. specialize (Hx y Hy).
  assert (x ≠ y) by (intros ->; done). lia.
Qed.

(** One round of the loop of [cleanup_deleted]. *)
Lemma cleanup_round (i : Z) (fs : store) :
  (found ← os_path_exists (file_of i);
   if found : bool then os_remove (file_of i) else skip) fs
  = (Ok (), delete (file_of i) fs,
     if decide (is_Some (fs !! file_of i)) then [file_of i] else []).
Proof.
  unfold os_path_exists, os_remove, skip.
  cbv [mbind eff_bind get mret eff_ret].
  destruct (fs !! file_of i) as [content|] eqn:Hfile.
  - rewrite bool_decide_eq_true_2, decide_True, Hfile by (by eexists).
    reflexivity.
  - rewrite bool_decide_eq_false_2, decide_False, delete_id
      by (done || by apply is_Some_None).
    reflexivity.
Qed.

(** The loop of [cleanup_deleted] over any list of distinct indices: it
    returns, the files of the indices are gone, and the paths handed to
    [os.remove] are those that were there, in the order of the list. *)
Lemma cleanup_loop (l : list Z) (fs : store) :
  NoDup l →
  for_each l (λ i,
    let path := file_of i in
    found ← os_path_exists path;
    if found : bool then os_remove path else skip) fs
  = (Ok (), foldl (λ fs i, delete (file_of i) fs) fs l,
     file_of <$> filter (λ i, is_Some (fs !! file_of i)) l).
Proof.
  revert fs. induction l as [|x l IH]; intros fs Hnd; [reflexivity|].
  apply NoDup_cons in Hnd as [Hx Hnd].
  assert (Hfilter :
    filter (λ i, is_Some (delete (file_of x) fs !! file_of i)) l
    = filter (λ i, is_Some (fs !! file_of i)) l).
  { clear IH Hnd. induction l as [|y l IHl]; [reflexivity|].
    rewrite !filter_cons.
    rewrite lookup_delete_ne
      by (intros Heq%file_of_inj; subst; apply Hx; left).
    rewrite IHl by (intros Hin; apply Hx; by right). reflexivity. }
  cbn [for_each foldl]. rewrite bind_eval. cbv zeta.
  rewrite cleanup_round, IH, Hfilter, filter_cons by done.
  destruct (decide (is_Some (fs !! file_of x))); reflexivity.
Qed.

Lemma lookup_removed (l : list Z) (fs : store) (name : string) :
  foldl (λ fs i, delete (file_of i) fs) fs l !! name
  = if decide (name ∈ file_of <$> l) then None else fs !! name.
Proof.
  revert fs. induction l as [|x l IH]; intros fs; [reflexivity|].
  cbn [foldl]. rewrite IH, fmap_cons.
  destruct (decide (name = file_of x)) as [->|Hne].
  - rewrite lookup_delete_eq, (decide_True _ _ (list_elem_of_here _ _)).
    by destruct (decide _).
  - rewrite lookup_delete_ne by done.
    destruct (decide (name ∈ file_of <$> l)) as [Hin|Hout].
    + rewrite decide_True; [done|by right].
    + rewrite decide_False; [done|].
      intros [?|?]%elem_of_cons; done.
Qed.

Lemma cleanup_deleted_eval (d : gset Z) (fs : store) :
  cleanup_deleted d fs
  = (Ok (), foldl (λ fs i, delete (file_of i) fs) fs (sorted_reverse d),
     file_of <$> filter (λ i, is_Some (fs !! file_of i)) (sorted_reverse d)).
Proof. apply cleanup_loop, sorted_reverse_NoDup. Qed.

Lemma lookup_cleaned (d : gset Z) (fs : store) (name : string) :
  after (cleanup_deleted d fs) !! name
  = if decide (name ∈ file_of <$> sorted_reverse d) then None else fs !! name.
Proof. rewrite cleanup_deleted_eval. apply lookup_removed. Qed.

Lemma elem_of_files (d : gset Z) (name : string) :
  name ∈ file_of <$> sorted_reverse d ↔ ∃ i, i ∈ d ∧ name = file_of i.
Proof.
  rewrite list_elem_of_fmap. split; intros (i & H1 & H2); exists i.
  - by apply sorted_reverse_elem in H2.
  - by apply sorted_reverse_elem in H1.
Qed.

(** C4.  Commit goes through the marked indices in strictly descending
    order, each of them once; an index whose file is not there is passed
    over, so commit never raises and hands to [os.remove] just the files
    that exist; and a second commit with the same marks, on the directory
    that the first one left, returns too, removes nothing and leaves the
    directory as it is. *)
Theorem commit_descending_idempotent (d : gset Z) (fs : store) :
  StronglySorted Z.gt (sorted_reverse d) ∧
  (∀ i, i ∈ sorted_reverse d ↔ i ∈ d) ∧
  ∃ fs',
    cleanup_deleted d fs
    = (Ok (), fs',
       file_of <$> filter (λ i, is_Some (fs !! file_of i)) (sorted_reverse d)) ∧
    cleanup_deleted d fs' = (Ok (), fs', []).
Proof.
  split; [apply sorted_reverse_descending|].
  split; [apply sorted_reverse_elem|].
  eexists. split; [apply cleanup_deleted_eval|].
  set (fs' := foldl _ fs (sorted_reverse d)).
  assert (Hgone : ∀ i, i ∈ sorted_reverse d → fs' !! file_of i = None).
  { intros i Hi. unfold fs'. rewrite lookup_removed, decide_True; [done|].
    apply list_elem_of_fmap. by exists i. }
  clearbody fs'. rewrite cleanup_deleted_eval. f_equal; [f_equal|].
  - apply map_eq. intros name. rewrite lookup_removed.
    destruct (decide _) as [(i & -> & Hi)%list_elem_of_fmap|]; [|done].
    symmetry. by apply Hgone.
  - induction (sorted_reverse d) as [|x l IH]; [reflexivity|].
    rewrite filter_cons, decide_False.
    + apply IH. intros i Hi. apply Hgone. by right.
    + rewrite Hgone by left. apply is_Some_None.
Qed.

(** C10.  After commit the file [<i+1>.txt] is absent for every marked
    index [i]; every file whose name is not of that form for a marked index
    is as before, in particular the file [<j+1>.txt] of an unmarked index
    [j]; and every path handed to [os.remove] is [<i+1>.txt] for a marked
    [i].  *)
Theorem commit_removes_only_marked_files (d : gset Z) (fs : store) :
  let fs' := after (cleanup_deleted d fs) in
  (∀ i, i ∈ d → fs' !! file_of i = None) ∧
  (∀ name, (∀ i, i ∈ d → name ≠ file_of i) → fs' !! name = fs !! name) ∧
  (∀ j, j ∉ d → fs' !! file_of j = fs !! file_of j) ∧
  (∀ path, path ∈ output (cleanup_deleted d fs) →
           ∃ i, i ∈ d ∧ path = file_of i ∧ is_Some (fs !! path)).
Proof.
  intros fs'.
  assert (Hother : ∀ name, (∀ i, i ∈ d → name ≠ file_of i) →
                           fs' !! name = fs !! name).
  { intros name Hname. unfold fs'. rewrite lookup_cleaned, decide_False; [done|].
    intros (i & Hi & ->)%elem_of_files. by apply (Hname i). }
  split; [|split; [exact Hother|split]].
  - intros i Hi. unfold fs'. rewrite lookup_cleaned, decide_True; [done|].
    apply elem_of_files. by exists i.
  - intros j Hj. apply Hother. intros i Hi Heq%file_of_inj. by subst.
  - intros path. rewrite cleanup_deleted_eval. unfold output. simpl.
    intros (i & -> & Hi)%list_elem_of_fmap.
    apply list_elem_of_filter in Hi as [Hthere Hi].
    exists i. by rewrite <- sorted_reverse_elem.
Qed.

Lemma commit_removes_only_marked_files_witness :
  let fs : store :=
    {["1.txt" := "Hello"; "2.txt" := "Hi"; "notes.md" := "keep"]} in
  let fs' := after (cleanup_deleted {[0]} fs) in
  fs' !! "1.txt" = None ∧ fs' !! "notes.md" = Some "keep" ∧
  fs' !! "2.txt" = Some "Hi".
Proof.
  intros fs fs'.
  destruct (commit_removes_only_marked_files {[0]} fs) as (H1 & H2 & H3 & _).
  split; [|split].
  - apply (H1 0). by apply elem_of_singleton.
  - change (fs' !! "notes.md" = fs !! "notes.md"). apply H2.
    intros i ->%elem_of_singleton. discriminate.
  - change (fs' !! file_of 1 = fs !! file_of 1). apply H3.
    intros Hin%elem_of_singleton. discriminate.
Defined.

(** ** USER *)

(** C2, as the code has it.  In the Auth phase USER answers success and
    records the name as the pending user name exactly when its first
    argument is the configured account name; with any other name, or with
    no argument, it answers failure and leaves the pending user name as it
    was.  The phase stays Auth either way. *)
Theorem user_accepts_configured_name (s : Pop3Session) (args : list string) :
  phase s = Auth →
  handle_auth "USER" args s
  = (if decide (head args = Some USERNAME)
     then (Ok (), set_username USERNAME s, ["+OK User accepted"])
     else (Ok (), s, ["-ERR Invalid user"])) ∧
  phase (after (handle_auth "USER" args s)) = Auth.
Proof.
  intros Hphase. assert (Hopen := proj1 (proj1 (phase_Auth s) Hphase)).
  assert (Heval : handle_auth "USER" args s
    = if decide (head args = Some USERNAME)
      then (Ok (), set_username USERNAME s, ["+OK User accepted"])
      else (Ok (), s, ["-ERR Invalid user"])).
  { unfold handle_auth. rewrite decide_True by reflexivity.
    destruct args as [|a0 args]; cbn [head].
    - rewrite decide_False by discriminate. by apply send_line_open.
    - destruct (decide (a0 = USERNAME)) as [->|Hne].
      + rewrite bool_decide_eq_true_2, decide_True by done.
        rewrite (bind_ok _ _ _ _ _ _ (send_line_open _ _ Hopen)). reflexivity.
      + rewrite bool_decide_eq_false_2, decide_False by congruence.
        by apply send_line_open. }
  split; [exact Heval|]. rewrite Heval.
  destruct (decide _); [|exact Hphase].
  unfold after. simpl. exact Hphase.
Qed.

Lemma user_accepts_configured_name_witness :
  let s := new_session ∅ in
  phase s = Auth ∧
  handle_auth "USER" ["user"] s
  = (Ok (), set_username "user" s, ["+OK User accepted"]).
Proof.
  intros s. split; [reflexivity|].
  exact (proj1 (user_accepts_configured_name s ["user"] eq_refl)).
Defined.

(** C2 as stated fails: a USER command whose name is not empty, but is not
    the configured one, is answered with failure, and the name is not
    recorded. *)
Lemma user_other_name_refused :
  let s := new_session ∅ in
  phase s = Auth ∧
  handle_auth "USER" ["bob"] s = (Ok (), s, ["-ERR Invalid user"]) ∧
  username (after (handle_auth "USER" ["bob"] s)) ≠ "bob".
Proof. intros s. split; [reflexivity|]. split; [reflexivity|]. discriminate. Qed.

(** ** DELE followed by RSET *)

Lemma dele_eval (s : Pop3Session) (a0 : string) (args : list string) (n : Z) :
  conn_closed s = false → Py.int a0 = Some n →
  handle_transaction "DELE" (a0 :: args) s
  = if in_range s (n - 1)
    then (Ok (), set_deleted ({[n - 1]} ∪ deleted s) s,
          ["+OK Message " +:+ Py.fmt (n - 1 + 1) +:+ " marked for deletion"])
    else (Ok (), s, ["-ERR No such message"]).
Proof.
  intros Hopen Hn. unfold handle_transaction. simpl.
  rewrite (bind_ok _ _ _ _ _ _ (getitem_lookup (a0 :: args) 0 a0 s eq_refl)).
  rewrite (bind_ok _ _ _ _ _ _ (int_of_Some a0 n s Hn)).
  rewrite get_bind.
  destruct (in_range s (n - 1));
    [|rewrite send_line_open by exact Hopen; reflexivity].
  rewrite bind_eval. simpl. rewrite send_line_open by exact Hopen. reflexivity.
Qed.

Lemma rset_eval (s : Pop3Session) (args : list string) :
  conn_closed s = false →
  handle_transaction "RSET" args s
  = (Ok (), set_deleted ∅ s, ["+OK Deletion marks cleared"]).
Proof.
  intros Hopen. unfold handle_transaction. simpl.
  rewrite bind_eval. simpl. rewrite send_line_open by exact Hopen. reflexivity.
Qed.

(** C6, as the code has it.  RSET clears every mark, not the last one
    only.  So from a Transaction session without marks, DELE of an index
    in range followed by RSET gives back the very same session object, and
    with it the same reply to every command, STAT, LIST and UIDL in both
    forms among them. *)
Theorem dele_rset_restores (s : Pop3Session) (a0 : string)
    (args args' : list string) (n : Z) :
  phase s = Transaction →
  deleted s = ∅ →
  Py.int a0 = Some n →
  1 ≤ n ≤ Py.len (messages s) →
  let s1 := after (handle_transaction "DELE" (a0 :: args) s) in
  let s2 := after (handle_transaction "RSET" args' s1) in
  result_of (handle_transaction "DELE" (a0 :: args) s) = Ok () ∧
  deleted s1 = {[n - 1]} ∧
  result_of (handle_transaction "RSET" args' s1) = Ok () ∧
  s2 = s ∧
  ∀ cmd args'',
    handle_transaction cmd args'' s2 = handle_transaction cmd args'' s.
Proof.
  intros [Hopen _]%phase_Transaction Hnone Hn Hrange s1 s2.
  assert (Hr : in_range s (n - 1) = true).
  { apply bool_decide_eq_true. lia. }
  assert (H1 : handle_transaction "DELE" (a0 :: args) s
    = (Ok (), set_deleted ({[n - 1]} ∪ deleted s) s,
       ["+OK Message " +:+ Py.fmt (n - 1 + 1) +:+ " marked for deletion"])).
  { by rewrite (dele_eval s a0 args n), Hr. }
  assert (Hs1 : s1 = set_deleted ({[n - 1]} ∪ deleted s) s).
  { unfold s1. by rewrite H1. }
  assert (H2 : handle_transaction "RSET" args' s1
    = (Ok (), set_deleted ∅ s1, ["+OK Deletion marks cleared"])).
  { apply rset_eval. by rewrite Hs1. }
  assert (Hs2 : s2 = s).
  { unfold s2. rewrite H2, Hs1. unfold after. simpl.
    destruct s. simpl in *. by subst. }
  split; [by rewrite H1|]. split.
  { rewrite Hs1. simpl. rewrite Hnone. apply (right_id_L ∅ (∪)). }
  split; [by rewrite H2|]. split; [exact Hs2|].
  intros cmd args''. by rewrite Hs2.
Qed.

Lemma dele_rset_restores_witness :
  let s := {| conn_closed := false; state := TRANSACTION; username := "user";
              messages := ["Hello"; "Hi"]; deleted := ∅ |} in
  let s1 := after (handle_transaction "DELE" ["2"] s) in
  let s2 := after (handle_transaction "RSET" [] s1) in
  phase s = Transaction ∧ deleted s1 = {[1]} ∧ s2 = s.
Proof.
  intros s s1 s2. split; [reflexivity|].
  assert (Hlen : 1 ≤ 2 ≤ Py.len (messages s)).
  { unfold Py.len. simpl. lia. }
  destruct (dele_rset_restores s "2" [] [] 2 eq_refl eq_refl eq_refl Hlen)
    as (_ & H1 & _ & H2 & _).
  split; [exact H1|exact H2].
Defined.

(** C6 as stated fails when a mark was there before the DELE: RSET removes
    it too, and STAT, LIST and UIDL show the first message again. *)
Lemma dele_rset_forgets_earlier_marks :
  let s := {| conn_closed := false; state := TRANSACTION; username := "user";
              messages := ["Hello"; "Hi"]; deleted := {[0]} |} in
  let s1 := after (handle_transaction "DELE" ["2"] s) in
  let s2 := after (handle_transaction "RSET" [] s1) in
  phase s = Transaction ∧
  output (handle_transaction "STAT" [] s) = ["+OK 1 2"] ∧
  output (handle_transaction "STAT" [] s2) = ["+OK 2 7"] ∧
  output (handle_transaction "LIST" [] s) = ["+OK 2 messages"; "2 2"; "."] ∧
  output (handle_transaction "LIST" [] s2)
  = ["+OK 2 messages"; "1 5"; "2 2"; "."] ∧
  output (handle_transaction "UIDL" ["1"] s) = ["-ERR No such message"] ∧
  output (handle_transaction "UIDL" ["1"] s2) = ["+OK 1 UID0001"].
Proof. intros s s1 s2. repeat split; vm_compute; reflexivity. Qed.

(** ** Numeric arguments that do not parse *)

Lemma bind_ok_silent {St A B} (m : Eff St A) (f : A → Eff St B) s a :
  m s = (Ok a, s, []) → (m ≫= f) s = f a s.
Proof.
  intros H. rewrite (bind_ok _ _ _ _ _ _ H).
  by destruct (f a s) as [[r s2] out2].
Qed.

Lemma command_eval (s : Pop3Session) (line p0 : string) (args : list string) :
  Py.split (Py.strip line) = p0 :: args →
  command line s
  = match state s with
    | AUTH => handle_auth (Py.upper p0) args s
    | TRANSACTION => handle_transaction (Py.upper p0) args s
    end.
Proof.
  intros Hparts. unfold command.
  rewrite decide_False by (intros Heq; by rewrite Heq in Hparts).
  rewrite Hparts.
  rewrite (bind_ok_silent _ _ s p0) by reflexivity.
  rewrite get_bind. by destruct (state s).
Qed.

Lemma unparsable_cmd (cmd : string) (args : list string) :
  unparsable cmd args → cmd ∈ ["RETR"; "DELE"; "TOP"; "LIST"; "UIDL"].
Proof.
  intros (i & Hi & _). unfold numeric_args in Hi.
  repeat case_decide; try by apply elem_of_nil in Hi.
  all: set_unfold; naive_solver.
Qed.

Lemma first_arg_unparsable (s : Pop3Session) (cmd : string) (args : list string) :
  cmd ∈ ["RETR"; "DELE"; "TOP"; "LIST"; "UIDL"] →
  (cmd = "LIST" ∨ cmd = "UIDL" → args ≠ []) →
  number_at args 0 = None →
  ∃ e, handle_transaction cmd args s = (Raise e, s, []).
Proof.
  intros Hcmd Hargs Hnone. destruct args as [|a0 args].
  - exists IndexError.
    repeat (apply elem_of_cons in Hcmd as [->|Hcmd]);
      [..|by apply elem_of_nil in Hcmd]; try reflexivity;
      exfalso; apply Hargs; auto.
  - exists ValueError. apply one_arg_unparsable; [done|exact Hnone].
Qed.

Lemma top_count_unparsable (s : Pop3Session) (args : list string) :
  number_at args 1 = None →
  ∃ e, handle_transaction "TOP" args s = (Raise e, s, []).
Proof.
  intros Hnone.
  destruct (number_at args 0) as [i|] eqn:Hfirst.
  - destruct args as [|a0 args]; [discriminate|].
    unfold number_at in Hfirst. simpl in Hfirst.
    unfold handle_transaction. simpl.
    rewrite (bind_ok_silent _ _ s a0) by reflexivity.
    rewrite (bind_ok_silent _ _ s i) by (by apply int_of_Some).
    destruct args as [|a1 args].
    + exists IndexError. reflexivity.
    + exists ValueError. unfold number_at in Hnone. simpl in Hnone.
      rewrite (bind_ok_silent _ _ s a1) by reflexivity.
      by rewrite (bind_raise _ _ _ _ _ _ (int_of_None a1 s Hnone)).
  - apply first_arg_unparsable; [set_solver|intros [|]; discriminate|done].
Qed.

Lemma transaction_unparsable (s : Pop3Session) (cmd : string) (args : list string) :
  unparsable cmd args →
  ∃ e, handle_transaction cmd args s = (Raise e, s, []).
Proof.
  intros Hbad. assert (Hcmd := unparsable_cmd _ _ Hbad).
  destruct Hbad as (i & Hi & Hnone). unfold numeric_args in Hi.
  case_decide as H1; [|case_decide as H2; [|case_decide as H3]].
  - apply list_elem_of_singleton in Hi as ->.
    apply first_arg_unparsable; [done| |done].
    intros [|]; destruct H1; congruence.
  - subst cmd. apply elem_of_cons in Hi as [->|Hi].
    + apply first_arg_unparsable; [done| |done]. intros [|]; discriminate.
    + apply list_elem_of_singleton in Hi as ->. by apply top_count_unparsable.
  - destruct args as [|a0 args]; [by apply elem_of_nil in Hi|].
    apply list_elem_of_singleton in Hi as ->.
    by apply first_arg_unparsable.
  - by apply elem_of_nil in Hi.
Qed.

Lemma auth_not_allowed (s : Pop3Session) (cmd : string) (args : list string) :
  conn_closed s = false →
  cmd ∈ ["RETR"; "DELE"; "TOP"; "LIST"; "UIDL"] →
  handle_auth cmd args s = (Ok (), s, ["-ERR Command not allowed"]).
Proof.
  intros Hopen Hcmd.
  repeat (apply elem_of_cons in Hcmd as [->|Hcmd]);
    [..|by apply elem_of_nil in Hcmd];
    unfold handle_auth; simpl; by apply send_line_open.
Qed.

Lemma for_each_app {St A} (l1 l2 : list A) (body : A → Eff St unit) (s : St) :
  for_each (l1 ++ l2) body s = (for_each l1 body ;; for_each l2 body) s.
Proof.
  revert s. induction l1 as [|x l1 IH]; intros s.
  - simpl. unfold skip. by rewrite (bind_ok_silent _ _ s ()).
  - cbn [app for_each]. rewrite !bind_eval.
    destruct (body x s) as [[[[]|e] s1] out1]; [|reflexivity].
    rewrite IH, bind_eval.
    destruct (for_each l1 body s1) as [[[[]|e] s2] out2]; [|reflexivity].
    destruct (for_each l2 body s2) as [[r s3] out3].
    by rewrite app_assoc.
Qed.

(** C1, as the code has it.  Take a line whose command has a numeric
    argument that is absent or does not parse.  In the Auth phase it is
    answered [-ERR Command not allowed] and the session stays as it is.  In
    the Transaction phase the handler raises before anything is sent and
    with the session unchanged, and the loop of [handle] is left at that
    line: what the lines before it in the same read have sent is all that
    is sent, and the lines and the reads that follow are not looked at. *)
Theorem unparsable_number_leaves_loop (s : Pop3Session) (line p0 : string)
    (args : list string) :
  Py.split (Py.strip line) = p0 :: args →
  unparsable (Py.upper p0) args →
  (phase s = Auth →
     command line s = (Ok (), s, ["-ERR Command not allowed"])) ∧
  (phase s = Transaction →
     (∃ e, command line s = (Raise e, s, [])) ∧
     ∀ script buffer data before lines buffer' s0 out0,
       conn_closed s0 = false →
       data ≠ "" →
       frame (buffer +:+ data) = (before ++ line :: lines, buffer') →
       for_each before command s0 = (Ok (), s, out0) →
       recv_loop (Data data :: script) buffer s0 = (s, out0)).
Proof.
  intros Hparts Hbad. split.
  - intros [Hopen Hstate]%phase_Auth.
    rewrite (command_eval s line p0 args Hparts), Hstate.
    apply auth_not_allowed; [exact Hopen|by apply unparsable_cmd in Hbad].
  - intros [Hopen Hstate]%phase_Transaction.
    destruct (transaction_unparsable s _ _ Hbad) as [e He].
    assert (Hcommand : command line s = (Raise e, s, [])).
    { by rewrite (command_eval s line p0 args Hparts), Hstate. }
    split; [by exists e|].
    intros script buffer data before lines buffer' s0 out0
      Hopen0 Hdata Hframe Hbefore.
    cbn [recv_loop]. rewrite Hopen0, decide_False, Hframe by done.
    rewrite for_each_app, (bind_ok _ _ _ _ _ _ Hbefore). cbn [for_each].
    rewrite (bind_raise _ _ _ _ _ _ Hcommand), app_nil_r. reflexivity.
Qed.

Lemma unparsable_number_leaves_loop_witness :
  let fs : store := {["1.txt" := "Hello"; "2.txt" := "Hi"]} in
  let s := {| conn_closed := false; state := TRANSACTION; username := "user";
              messages := ["Hello"; "Hi"]; deleted := {[0]} |} in
  phase s = Transaction ∧
  unparsable "TOP" ["1"; "z"] ∧
  (∃ e, command "top 1 z" s = (Raise e, s, [])) ∧
  recv_loop
    [Data (crlf_lines ["USER user"; "PASS pass"; "DELE 1"; "top 1 z"; "STAT"]);
     Data (crlf_lines ["NOOP"])]
    "" (new_session fs)
  = (s, ["+OK User accepted"; "+OK Authenticated";
         "+OK Message 1 marked for deletion"]).
Proof.
  intros fs s.
  assert (Hbad : unparsable "TOP" ["1"; "z"]).
  { exists 1%nat. split; [|reflexivity]. vm_compute. by right; left. }
  destruct (unparsable_number_leaves_loop s "top 1 z" "top" ["1"; "z"]
              eq_refl Hbad) as [_ Htrans].
  destruct (Htrans eq_refl) as [Hraise Hloop].
  split; [reflexivity|]. split; [exact Hbad|]. split; [exact Hraise|].
  apply (Hloop _ "" _ ["USER user"; "PASS pass"; "DELE 1"] ["STAT"] "");
    [reflexivity|discriminate|reflexivity|vm_compute; reflexivity].
Defined.

(** C1 as stated fails in the Transaction phase: [RETR x], [DELE] and
    [TOP 1 z] are not answered at all, and in a session the line ends the
    loop: the STAT after it gets no answer, the connection is closed and
    the pending deletion is committed. *)
Lemma unparsable_number_no_reply :
  let s := {| conn_closed := false; state := TRANSACTION; username := "user";
              messages := ["Hello"; "Hi"]; deleted := ∅ |} in
  let fs : store := {["1.txt" := "Hello"; "2.txt" := "Hi"]} in
  let run := serve fs [Data (crlf_lines
    ["USER user"; "PASS pass"; "DELE 1"; "RETR x"; "STAT"])] in
  phase s = Transaction ∧
  command "RETR x" s = (Raise ValueError, s, []) ∧
  command "DELE" s = (Raise IndexError, s, []) ∧
  command "TOP 1 z" s = (Raise ValueError, s, []) ∧
  sent run = ["+OK POP3 server ready"; "+OK User accepted";
              "+OK Authenticated"; "+OK Message 1 marked for deletion"] ∧
  phase (session run) = Closed ∧
  commits run = [["1.txt"]] ∧
  mailbox run !! "1.txt" = None.
Proof. intros s fs run. repeat split; vm_compute; reflexivity. Qed.

(** ** TOP *)

Lemma header_body (lines : list string) :
  lines = header_block lines ++ body_lines lines ∧
  ("" ∉ header_block lines) ∧
  (body_lines lines = [] ∨ head (body_lines lines) = Some "").
Proof.
  unfold body_lines. induction lines as [|line lines (IH1 & IH2 & IH3)].
  - split; [reflexivity|]. split; [apply not_elem_of_nil|by left].
  - simpl. destruct (decide (line = "")) as [->|Hline]; simpl.
    + split; [reflexivity|]. split; [apply not_elem_of_nil|by right].
    + split; [by rewrite <- IH1|]. split; [|exact IH3].
      intros [?|?]%elem_of_cons; [by subst|done].
Qed.

Lemma top_loop_body (header body lines : list string) :
  foldl top_step (header, body, true) lines = (header, body ++ lines, true).
Proof.
  revert body. induction lines as [|line lines IH]; intros body; simpl.
  - by rewrite app_nil_r.
  - rewrite IH, <- app_assoc. reflexivity.
Qed.

Lemma top_loop_header (header lines : list string) :
  (foldl top_step (header, [], false) lines).1
  = (header ++ header_block lines, body_lines lines).
Proof.
  unfold body_lines. revert header.
  induction lines as [|line lines IH]; intros header; simpl.
  - by rewrite app_nil_r.
  - destruct (decide (line = "")) as [->|Hline]; simpl.
    + rewrite top_loop_body, app_nil_r. reflexivity.
    + rewrite bool_decide_eq_false_2 by done. simpl.
      rewrite IH, <- app_assoc. reflexivity.
Qed.

(** The loop of TOP computes the header block and the body. *)
Lemma top_split_spec (lines : list string) :
  top_split lines = (header_block lines, body_lines lines).
Proof.
  unfold top_split. assert (H := top_loop_header [] lines).
  destruct (foldl top_step ([], [], false) lines) as [[header body] sep].
  exact H.
Qed.

(** Sending message lines that decode. *)
Lemma send_decoded (s : Pop3Session) (lines : list string) :
  conn_closed s = false →
  Forall (λ line, Py.utf8_valid line = true) lines →
  for_each lines (λ line, text ← decode_of line; send_line text) s
  = (Ok (), s, lines).
Proof.
  intros Hopen Hvalid.
  rewrite (for_each_sends lines _ (λ line, [line]) s).
  - f_equal. induction lines as [|line lines IH]; [reflexivity|].
    simpl. f_equal. apply IH. by apply Forall_cons in Hvalid as [_ ?].
  - intros line Hline. rewrite Forall_forall in Hvalid.
    unfold decode_of, Py.decode. rewrite (Hvalid line Hline).
    rewrite (bind_ok_silent _ _ s line) by reflexivity.
    by apply send_line_open.
Qed.

(** C9, as the code has it.  For a message that is in range and not
    marked, and a line count [k >= 0]: the lines of the message are the
    header block, which has no empty line, followed by the body, which is
    empty or starts with the first empty line; and provided the header
    lines and the first [k] body lines are well-formed UTF-8, TOP answers
    the status line, the header block, the first [k] body lines (all of
    them if there are fewer) and the terminator.  With [k = 0] these are the
    status line, the header lines and the terminator. *)
Theorem top_header_and_body (s : Pop3Session) (a0 a1 : string)
    (args : list string) (n k : Z) (m : string) :
  phase s = Transaction →
  Py.int a0 = Some n →
  Py.int a1 = Some k →
  0 ≤ k →
  live s (n - 1) = true →
  messages s !! Z.to_nat (n - 1) = Some m →
  let lines := Py.splitlines m in
  let header := header_block lines in
  let body := body_lines lines in
  Forall (λ line, Py.utf8_valid line = true)
         (header ++ take (Z.to_nat k) body) →
  lines = header ++ body ∧
  ("" ∉ header) ∧
  (body = [] ∨ head body = Some "") ∧
  handle_transaction "TOP" (a0 :: a1 :: args) s
  = (Ok (), s,
     "+OK Top of message follows" :: header ++ take (Z.to_nat k) body ++ ["."]) ∧
  (k = 0 →
   handle_transaction "TOP" (a0 :: a1 :: args) s
   = (Ok (), s, "+OK Top of message follows" :: header ++ ["."])).
Proof.
  intros [Hopen _]%phase_Transaction Hn Hk Hk0 Hlive Hm lines header body Hutf.
  destruct (header_body lines) as (Hsplit & Hheader & Hbody).
  apply Forall_app in Hutf as [Hutf1 Hutf2].
  assert (Heval : handle_transaction "TOP" (a0 :: a1 :: args) s
    = (Ok (), s,
       "+OK Top of message follows"
       :: header ++ take (Z.to_nat k) body ++ ["."])).
  { unfold handle_transaction. simpl.
    rewrite (bind_ok_silent _ _ s a0) by reflexivity.
    rewrite (bind_ok_silent _ _ s n) by (by apply int_of_Some).
    rewrite (bind_ok_silent _ _ s a1) by reflexivity.
    rewrite (bind_ok_silent _ _ s k) by (by apply int_of_Some).
    rewrite get_bind, Hlive.
    rewrite (bind_ok_silent _ _ s m) by (by apply getitem_lookup).
    rewrite top_split_spec.
    rewrite (bind_ok _ _ _ _ _ _ (send_line_open _ _ Hopen)).
    rewrite (bind_ok _ _ _ _ _ _ (send_decoded s _ Hopen Hutf1)).
    assert (Hslice : Py.slice_to k (body_lines (Py.splitlines m))
                     = take (Z.to_nat k) body).
    { unfold Py.slice_to. by rewrite (proj2 (Z.leb_le 0 k) Hk0). }
    rewrite Hslice.
    rewrite (bind_ok _ _ _ _ _ _ (send_decoded s _ Hopen Hutf2)).
    rewrite send_line_open by exact Hopen. reflexivity. }
  split; [exact Hsplit|]. split; [exact Hheader|]. split; [exact Hbody|].
  split; [exact Heval|].
  intros ->. rewrite Heval. reflexivity.
Qed.

Lemma top_header_and_body_witness :
  let m := "Subject: hi" +:+ Py.CRLF +:+ "To: you" +:+ Py.CRLF +:+ Py.CRLF
           +:+ "Body1" +:+ Py.CRLF +:+ "Body2" in
  let s := {| conn_closed := false; state := TRANSACTION; username := "user";
              messages := ["Hello"; m]; deleted := {[0]} |} in
  phase s = Transaction ∧
  handle_transaction "TOP" ["2"; "2"] s
  = (Ok (), s,
     ["+OK Top of message follows"; "Subject: hi"; "To: you"; ""; "Body1"; "."]) ∧
  handle_transaction "TOP" ["2"; "0"] s
  = (Ok (), s, ["+OK Top of message follows"; "Subject: hi"; "To: you"; "."]).
Proof.
  intros m s. split; [reflexivity|]. split.
  - refine (proj1 (proj2 (proj2 (proj2
      (top_header_and_body s "2" "2" [] 2 2 m eq_refl eq_refl eq_refl _ _ eq_refl _))))).
    + lia.
    + vm_compute. reflexivity.
    + vm_compute. repeat constructor.
  - refine (proj2 (proj2 (proj2 (proj2
      (top_header_and_body s "2" "0" [] 2 0 m eq_refl eq_refl eq_refl _ _ eq_refl _))))
      eq_refl).
    + lia.
    + vm_compute. reflexivity.
    + vm_compute. repeat constructor.
Defined.

(** C9 as stated fails on a message with a line that is not well-formed
    UTF-8, here the single byte 255: TOP sends the status line, raises on
    decoding the line, and neither the header nor the terminator follow.
    It also fails for a negative count, which [int] accepts: [TOP 1 -1]
    sends all body lines but the last. *)
Lemma top_reply_breaks :
  let m := String "255"%char "" +:+ Py.CRLF +:+ Py.CRLF +:+ "Body1" in
  let m' := "Subject: hi" +:+ Py.CRLF +:+ Py.CRLF +:+ "Body1" +:+ Py.CRLF
            +:+ "Body2" in
  let s := {| conn_closed := false; state := TRANSACTION; username := "user";
              messages := [m; m']; deleted := ∅ |} in
  phase s = Transaction ∧
  live s 0 = true ∧
  header_block (Py.splitlines m) = [String "255"%char ""] ∧
  handle_transaction "TOP" ["1"; "0"] s
  = (Raise UnicodeDecodeError, s, ["+OK Top of message follows"]) ∧
  live s 1 = true ∧
  body_lines (Py.splitlines m') = [""; "Body1"; "Body2"] ∧
  handle_transaction "TOP" ["2"; "-1"] s
  = (Ok (), s, ["+OK Top of message follows"; "Subject: hi"; ""; "Body1"; "."]).
Proof. intros m m' s. repeat split; vm_compute; reflexivity. Qed.

(** ** The end of the session *)

(** Whatever the client sends and however the connection ends, [handle]
    returns with the connection closed after one call of [cleanup_deleted],
    made with the marks that the session holds at that moment. *)
Lemma handle_commits_once (script : list recv) (s : Pop3Session) (fs : store) :
  conn_closed s = false →
  let run := handle script s fs in
  returned run = Ok () ∧
  phase (session run) = Closed ∧
  cleanup_deleted (deleted (session run)) fs
  = (Ok (), mailbox run, default [] (head (commits run))) ∧
  length (commits run) = 1%nat.
Proof.
  intros Hopen. unfold handle. rewrite send_line_open by exact Hopen.
  destruct (recv_loop script "" s) as [s1 out1].
  assert (Heval := cleanup_deleted_eval (deleted (close s1)) fs).
  destruct (cleanup_deleted (deleted (close s1)) fs) as [[r fs'] removed].
  injection Heval as -> -> ->. repeat split. apply cleanup_deleted_eval.
Qed.

(** C3 fails on the code.  With ten mails in the directory, the snapshot is
    taken in the order of the file names as strings, so that message
    number 2 is the content of [10.txt]: RETR 2 shows it, DELE 2 marks it.
    Commit then removes [2.txt]: the marked message stays in the directory
    and a message that was not marked is gone.  With a directory that holds
    [2.txt] only, DELE 1 marks its message and commit removes nothing. *)
Lemma commit_misses_marked_message :
  let run := serve ten_mails [Data (crlf_lines
    ["USER user"; "PASS pass"; "RETR 2"; "DELE 2"; "QUIT"])] in
  let run' := serve {["2.txt" := "Hi"]} [Data (crlf_lines
    ["USER user"; "PASS pass"; "DELE 1"; "QUIT"])] in
  sorted_listdir ten_mails
  = ["1.txt"; "10.txt"; "2.txt"; "3.txt"; "4.txt"; "5.txt"; "6.txt"; "7.txt";
     "8.txt"; "9.txt"] ∧
  sent run
  = ["+OK POP3 server ready"; "+OK User accepted"; "+OK Authenticated";
     "+OK 7 octets"; "mail 10"; "."; "+OK Message 2 marked for deletion";
     "+OK Goodbye"] ∧
  elements (deleted (session run)) = [1] ∧
  messages (session run) !! 1%nat = ten_mails !! "10.txt" ∧
  commits run = [["2.txt"]] ∧
  mailbox run !! "10.txt" = Some "mail 10" ∧
  mailbox run !! "2.txt" = None ∧
  sent run'
  = ["+OK POP3 server ready"; "+OK User accepted"; "+OK Authenticated";
     "+OK Message 1 marked for deletion"; "+OK Goodbye"] ∧
  elements (deleted (session run')) = [0] ∧
  commits run' = [[]] ∧
  mailbox run' = {["2.txt" := "Hi"]}.
Proof. intros run run'. repeat split; vm_compute; reflexivity. Qed.

(** ** Relations kept by the handlers *)

Section Keeps.
Context (R : relation Pop3Session) `{!Reflexive R, !Transitive R}.

Lemma keeps_bind {A B} (m : M A) (f : A → M B) :
  keeps R m → (∀ a, keeps R (f a)) → keeps R (m ≫= f).
Proof.
  intros Hm Hf s. rewrite after_bind. destruct (result_of (m s)); [|apply Hm].
  etrans; [apply Hm|apply Hf].
Qed.

Lemma keeps_get_bind {B} (f : Pop3Session → M B) :
  (∀ s, keeps R (f s)) → keeps R (get ≫= f).
Proof. intros Hf s. rewrite get_bind. apply Hf. Qed.

Lemma keeps_ret {A} (a : A) : keeps R (mret a : M A).
Proof. intros s. reflexivity. Qed.

Lemma keeps_skip : keeps R (skip : M unit).
Proof. apply keeps_ret. Qed.

Lemma keeps_raise {A} (e : exn) : keeps R (raise e : M A).
Proof. intros s. reflexivity. Qed.

Lemma keeps_send_line (line : string) : keeps R (send_line line).
Proof. intros s. unfold send_line. destruct (conn_closed s); reflexivity. Qed.

Lemma keeps_getitem {A} (l : list A) (i : Z) : keeps R (getitem l i : M A).
Proof.
  unfold getitem. destruct (l !! Z.to_nat i); [apply keeps_ret|apply keeps_raise].
Qed.

Lemma keeps_int_of (tok : string) : keeps R (int_of tok : M Z).
Proof. unfold int_of. destruct (Py.int tok); [apply keeps_ret|apply keeps_raise]. Qed.

Lemma keeps_decode_of (b : string) : keeps R (decode_of b : M string).
Proof.
  unfold decode_of. destruct (Py.decode b); [apply keeps_ret|apply keeps_raise].
Qed.

Lemma keeps_for_each {A} (l : list A) (body : A → M unit) :
  (∀ x, keeps R (body x)) → keeps R (for_each l body).
Proof.
  intros Hbody. induction l as [|x l IH]; [apply keeps_skip|].
  simpl. apply keeps_bind; [apply Hbody|intros _; exact IH].
Qed.

Lemma keeps_modify (f : Pop3Session → Pop3Session) :
  (∀ s, R s (f s)) → keeps R (modify f).
Proof. intros Hf s. apply Hf. Qed.
End Keeps.

Ltac keeps_auto :=
  repeat first
    [ match goal with
      | |- Reflexive _ => apply _
      | |- Transitive _ => apply _
      end
    | apply keeps_ret | apply keeps_skip | apply keeps_raise
    | apply keeps_send_line | apply keeps_getitem | apply keeps_int_of
    | apply keeps_decode_of
    | apply keeps_bind; [..|intros ?]
    | apply keeps_for_each; [..|intros ?]
    | apply keeps_get_bind; intros ?
    | match goal with
      | |- keeps _ (if ?b then _ else _) => destruct b
      | |- keeps _ (match ?x with _ => _ end) => destruct x
      | |- keeps _ (let '(_, _) := ?x in _) => destruct x
      end ].

#[local] Instance same_login_refl : Reflexive same_login.
Proof. by intros s. Qed.

#[local] Instance same_login_trans : Transitive same_login.
Proof.
  intros s1 s2 s3 (H1 & H2 & H3 & H4) (H1' & H2' & H3' & H4').
  repeat split; [congruence..|auto].
Qed.

Lemma handle_transaction_same_login (cmd : string) (args : list string) :
  keeps same_login (handle_transaction cmd args).
Proof.
  unfold handle_transaction, conn_close. repeat case_decide; keeps_auto.
  all: try (apply keeps_modify; intros s; by repeat split).
Qed.

(** Commands that only read: everything but DELE, RSET and QUIT. *)
Lemma handle_transaction_reads (cmd : string) (args : list string) :
  cmd ∉ ["DELE"; "RSET"; "QUIT"] →
  keeps eq (handle_transaction cmd args).
Proof.
  intros Hcmd. unfold handle_transaction. repeat case_decide; keeps_auto.
  all: subst cmd; exfalso; apply Hcmd; set_solver.
Qed.

(** ** PASS and the login *)

(** X1.  In the Auth phase PASS logs in exactly when the pending user name
    is the configured one and the first argument is the configured
    password: then it answers success and the session is in the Transaction
    phase; otherwise, also with no argument or before any accepted USER, it
    answers failure and the session, pending user name included, is as
    before. *)
Theorem pass_checks_credentials (s : Pop3Session) (args : list string) :
  phase s = Auth →
  handle_auth "PASS" args s
  = (if decide (username s = USERNAME ∧ head args = Some PASSWORD)
     then (Ok (), set_state TRANSACTION s, ["+OK Authenticated"])
     else (Ok (), s, ["-ERR Invalid password"])) ∧
  (phase (after (handle_auth "PASS" args s)) = Transaction
   ↔ username s = USERNAME ∧ head args = Some PASSWORD).
Proof.
  intros Hphase. assert (Hopen := proj1 (proj1 (phase_Auth s) Hphase)).
  assert (Hstate := proj2 (proj1 (phase_Auth s) Hphase)).
  assert (Heval : handle_auth "PASS" args s
    = if decide (username s = USERNAME ∧ head args = Some PASSWORD)
      then (Ok (), set_state TRANSACTION s, ["+OK Authenticated"])
      else (Ok (), s, ["-ERR Invalid password"])).
  { unfold handle_auth. rewrite decide_False by discriminate.
    rewrite decide_True by reflexivity. rewrite get_bind.
    destruct args as [|a0 args]; cbn [head].
    - rewrite decide_False by (intros [_ ?]; discriminate).
      by apply send_line_open.
    - destruct (decide (username s = USERNAME ∧ Some a0 = Some PASSWORD))
        as [[Hu Ha]|Hne].
      + injection Ha as ->.
        rewrite !bool_decide_eq_true_2 by done. cbn [andb].
        rewrite (bind_ok _ _ _ _ _ _ (send_line_open _ _ Hopen)). reflexivity.
      + assert (bool_decide (username s = USERNAME)
                && bool_decide (a0 = PASSWORD) = false) as ->.
        { apply andb_false_iff.
          destruct (decide (username s = USERNAME)) as [Hu|Hu].
          - right. apply bool_decide_eq_false. intros ->. by apply Hne.
          - left. by apply bool_decide_eq_false. }
        by apply send_line_open. }
  split; [exact Heval|]. rewrite Heval.
  destruct (decide _) as [Hyes|Hno]; unfold after; simpl.
  - split; [done|]. intros _. unfold phase. simpl. by rewrite Hopen.
  - rewrite Hphase. split; [discriminate|done].
Qed.

Lemma pass_checks_credentials_witness :
  let s := set_username "user" (new_session ∅) in
  phase s = Auth ∧
  handle_auth "PASS" ["pass"] s
  = (Ok (), set_state TRANSACTION s, ["+OK Authenticated"]) ∧
  handle_auth "PASS" ["pass"] (new_session ∅)
  = (Ok (), new_session ∅, ["-ERR Invalid password"]).
Proof.
  intros s. split; [reflexivity|]. split.
  - exact (proj1 (pass_checks_credentials s ["pass"] eq_refl)).
  - exact (proj1 (pass_checks_credentials (new_session ∅) ["pass"] eq_refl)).
Defined.

Lemma after_send_line (line : string) (s : Pop3Session) :
  after (send_line line s) = s.
Proof. symmetry. apply (keeps_send_line eq). Qed.

Lemma after_getitem {A} (l : list A) (i : Z) (s : Pop3Session) :
  after (getitem l i s) = s.
Proof. symmetry. apply (keeps_getitem eq). Qed.

(** What [handle_auth] can do to the session object. *)
Lemma handle_auth_cases (cmd : string) (args : list string) (s : Pop3Session) :
  let s' := after (handle_auth cmd args s) in
  s' = s ∨ s' = close s ∨ s' = set_username USERNAME s ∨
  (username s = USERNAME ∧ s' = set_state TRANSACTION s).
Proof.
  unfold handle_auth, conn_close.
  repeat case_decide; rewrite ?get_bind, ?after_bind.
  - destruct args as [|a0 args].
    + left. apply after_send_line.
    + destruct (bool_decide (a0 = USERNAME)) eqn:Ha.
      * apply bool_decide_eq_true in Ha as ->. rewrite after_bind.
        unfold send_line. destruct (conn_closed s); simpl; auto.
      * left. apply after_send_line.
  - destruct args as [|a0 args].
    + left. apply after_send_line.
    + destruct (bool_decide (username s = USERNAME)) eqn:Hu; simpl.
      * apply bool_decide_eq_true in Hu.
        destruct (bool_decide (a0 = PASSWORD)).
        -- rewrite after_bind. unfold send_line.
           destruct (conn_closed s); simpl; auto.
        -- left. apply after_send_line.
      * left. apply after_send_line.
  - unfold send_line. destruct (conn_closed s); simpl; auto.
  - left. apply after_send_line.
Qed.

Lemma command_login_invariant (line : string) (s : Pop3Session) :
  login_invariant s → login_invariant (after (command line s)).
Proof.
  intros [Hauth Htrans]. unfold command. case_decide; [done|].
  rewrite after_bind. destruct (result_of _) as [p0|e].
  2:{ rewrite after_getitem. by split. }
  rewrite after_getitem, get_bind.
  destruct (state s) eqn:Hstate.
  - destruct (handle_auth_cases (Py.upper p0) (drop 1 (Py.split (Py.strip line))) s)
      as [->|[->|[->|[Hu ->]]]]; split; simpl; try rewrite Hstate; auto; done.
  - destruct (handle_transaction_same_login (Py.upper p0)
                (drop 1 (Py.split (Py.strip line))) s) as (H1 & H2 & _).
    split; [rewrite H1, Hstate; discriminate|]. intros _. rewrite H2. auto.
Qed.

Lemma reachable_login (fs : store) (s : Pop3Session) :
  reachable fs s → login_invariant s.
Proof.
  induction 1 as [|s line _ IH].
  - split; [reflexivity|discriminate].
  - by apply command_login_invariant.
Qed.

(** X2.  In every session object that [handle] goes through, a session
    still in the [AUTH] state holds no deletion mark, and a session in the
    [TRANSACTION] state holds the configured user name as its user name:
    the only way into [TRANSACTION] is a PASS that passes the check. *)
Theorem login_before_marks (fs : store) (s : Pop3Session) :
  reachable fs s →
  (state s = AUTH → deleted s = ∅) ∧
  (state s = TRANSACTION → username s = USERNAME).
Proof. apply reachable_login. Qed.

Lemma login_before_marks_witness :
  let fs : store := {["1.txt" := "Hello"]} in
  let s := after (command "DELE 1" (after (command "USER user" (new_session fs)))) in
  reachable fs s ∧ login_invariant s.
Proof.
  intros fs s.
  assert (Hs : reachable fs s) by (do 2 apply reachable_command; apply reachable_new).
  split; [exact Hs|exact (login_before_marks fs s Hs)].
Defined.



(** ** What the commands leave alone *)

(** X4.  A command that is not DELE, RSET or QUIT leaves the session
    object of the Transaction handler exactly as it was, whatever its
    arguments and whether it returns or raises; in the Auth handler the same
    holds of every command that is not USER, PASS or QUIT. *)
Theorem reading_changes_nothing (cmd : string) (args : list string)
    (s : Pop3Session) :
  (cmd ∉ ["DELE"; "RSET"; "QUIT"] →
   after (handle_transaction cmd args s) = s) ∧
  (cmd ∉ ["USER"; "PASS"; "QUIT"] →
   after (handle_auth cmd args s) = s).
Proof.
  split; intros Hcmd.
  - symmetry. by apply handle_transaction_reads.
  - unfold handle_auth. repeat case_decide; try apply after_send_line.
    all: subst cmd; exfalso; apply Hcmd; set_solver.
Qed.

Lemma reading_changes_nothing_witness :
  let s := {| conn_closed := false; state := TRANSACTION; username := "user";
              messages := ["Hello"; String "255"%char ""]; deleted := {[0]} |} in
  after (handle_transaction "RETR" ["2"] s) = s ∧
  after (handle_transaction "TOP" ["x"] s) = s ∧
  after (handle_auth "STAT" [] s) = s.
Proof.
  intros s. split; [|split].
  - apply (proj1 (reading_changes_nothing "RETR" ["2"] s)). set_solver.
  - apply (proj1 (reading_changes_nothing "TOP" ["x"] s)). set_solver.
  - apply (proj2 (reading_changes_nothing "STAT" [] s)). set_solver.
Defined.

(** X5.  No command of the Transaction handler changes the [state]
    variable, the user name or the snapshot, and none reopens a closed
    connection: a session that has logged in stays logged in until its
    connection is closed, and holds the messages loaded at its start. *)
Theorem transaction_keeps_login (cmd : string) (args : list string)
    (s : Pop3Session) :
  let s' := after (handle_transaction cmd args s) in
  state s' = state s ∧ username s' = username s ∧
  messages s' = messages s ∧
  (conn_closed s = true → conn_closed s' = true).
Proof. apply handle_transaction_same_login. Qed.

(** ** After the connection is closed *)

Lemma output_bind {A B} (m : M A) (f : A → M B) (s : Pop3Session) :
  output ((m ≫= f) s) =
  match result_of (m s) with
  | Ok a => output (m s) ++ output (f a (after (m s)))
  | Raise _ => output (m s)
  end.
Proof.
  rewrite bind_eval. destruct (m s) as [[[a|e] s1] out1]; [|reflexivity].
  unfold after, result_of, output. simpl. by destruct (f a s1) as [[r s2] out2].
Qed.

Lemma quiet_bind {A B} (m : M A) (f : A → M B) :
  quiet m → (∀ a, quiet (f a)) → quiet (m ≫= f).
Proof.
  intros Hm Hf s Hs. destruct (Hm s Hs) as [Hout Hclosed].
  rewrite output_bind, after_bind. destruct (result_of (m s)) as [a|e]; [|done].
  destruct (Hf a _ Hclosed) as [Hout' Hclosed']. by rewrite Hout, Hout'.
Qed.

Lemma quiet_get_bind {B} (f : Pop3Session → M B) :
  (∀ s, quiet (f s)) → quiet (get ≫= f).
Proof. intros Hf s Hs. rewrite get_bind. by apply Hf. Qed.

Lemma quiet_ret {A} (a : A) : quiet (mret a : M A).
Proof. by intros s Hs. Qed.

Lemma quiet_raise {A} (e : exn) : quiet (raise e : M A).
Proof. by intros s Hs. Qed.

Lemma quiet_send_line (line : string) : quiet (send_line line).
Proof. intros s Hs. unfold send_line. by rewrite Hs. Qed.

Lemma quiet_getitem {A} (l : list A) (i : Z) : quiet (getitem l i : M A).
Proof.
  unfold getitem. destruct (l !! Z.to_nat i); [apply quiet_ret|apply quiet_raise].
Qed.

Lemma quiet_int_of (tok : string) : quiet (int_of tok : M Z).
Proof. unfold int_of. destruct (Py.int tok); [apply quiet_ret|apply quiet_raise]. Qed.

Lemma quiet_decode_of (b : string) : quiet (decode_of b : M string).
Proof.
  unfold decode_of. destruct (Py.decode b); [apply quiet_ret|apply quiet_raise].
Qed.

Lemma quiet_for_each {A} (l : list A) (body : A → M unit) :
  (∀ x, quiet (body x)) → quiet (for_each l body).
Proof.
  intros Hbody. induction l as [|x l IH]; [apply quiet_ret|].
  simpl. apply quiet_bind; [apply Hbody|intros _; exact IH].
Qed.

Lemma quiet_modify (f : Pop3Session → Pop3Session) :
  (∀ s, conn_closed s = true → conn_closed (f s) = true) → quiet (modify f).
Proof. intros Hf s Hs. split; [reflexivity|by apply Hf]. Qed.

Ltac quiet_auto :=
  repeat first
    [ apply quiet_ret | apply quiet_raise | apply quiet_send_line
    | apply quiet_getitem | apply quiet_int_of | apply quiet_decode_of
    | apply quiet_modify; by intros
    | apply quiet_bind; [|intros ?]
    | apply quiet_for_each; intros ?
    | apply quiet_get_bind; intros ?
    | match goal with
      | |- quiet (if ?b then _ else _) => destruct b
      | |- quiet (match ?x with _ => _ end) => destruct x
      | |- quiet (let '(_, _) := ?x in _) => destruct x
      end ].

Lemma command_quiet (line : string) : quiet (command line).
Proof.
  unfold command, handle_auth, handle_transaction, conn_close, skip.
  repeat case_decide; quiet_auto.
Qed.

Lemma recv_loop_closed (script : list recv) (buffer : string) (s : Pop3Session) :
  conn_closed s = true → recv_loop script buffer s = (s, []).
Proof. intros Hs. destruct script; simpl; by rewrite Hs. Qed.

Lemma quit_eval (s : Pop3Session) (args : list string) :
  conn_closed s = false →
  handle_auth "QUIT" args s = (Ok (), close s, ["+OK Goodbye"]) ∧
  handle_transaction "QUIT" args s = (Ok (), close s, ["+OK Goodbye"]).
Proof.
  intros Hopen. unfold handle_auth, handle_transaction. simpl.
  by rewrite !(bind_ok _ _ _ _ _ _ (send_line_open _ _ Hopen)).
Qed.

(** X6.  QUIT, in either phase of an open session, is answered
    [+OK Goodbye] and closes the connection, leaving the rest of the
    session object as it is; and it is the last line that is answered:
    whatever follows it in the same read, and whatever later reads would
    bring, nothing more is sent and the loop ends with the connection
    closed. *)
Theorem quit_is_last_answer (s : Pop3Session) (line p0 : string)
    (args : list string) :
  Py.split (Py.strip line) = p0 :: args →
  Py.upper p0 = "QUIT" →
  conn_closed s = false →
  command line s = (Ok (), close s, ["+OK Goodbye"]) ∧
  ∀ script buffer data before lines buffer' s0 out0,
    conn_closed s0 = false →
    data ≠ "" →
    frame (buffer +:+ data) = (before ++ line :: lines, buffer') →
    for_each before command s0 = (Ok (), s, out0) →
    ∃ s', recv_loop (Data data :: script) buffer s0
          = (s', out0 ++ ["+OK Goodbye"]) ∧
          conn_closed s' = true.
Proof.
  intros Hparts Hquit Hopen.
  assert (Hcommand : command line s = (Ok (), close s, ["+OK Goodbye"])).
  { rewrite (command_eval s line p0 args Hparts), Hquit.
    destruct (quit_eval s args Hopen). by destruct (state s). }
  split; [exact Hcommand|].
  intros script buffer data before lines buffer' s0 out0
    Hopen0 Hdata Hframe Hbefore.
  cbn [recv_loop]. rewrite Hopen0, decide_False, Hframe by done.
  rewrite for_each_app, (bind_ok _ _ _ _ _ _ Hbefore). cbn [for_each].
  rewrite (bind_ok _ _ _ _ _ _ Hcommand).
  destruct (quiet_for_each lines command command_quiet (close s) eq_refl)
    as [Hout Hclosed].
  destruct (for_each lines command (close s)) as [[r s'] out'].
  unfold output, after in Hout, Hclosed. simpl in Hout, Hclosed. subst out'.
  exists s'. split; [|exact Hclosed].
  destruct r as [[]|e]; [|reflexivity].
  rewrite (recv_loop_closed script buffer' s' Hclosed).
  by rewrite !app_nil_r.
Qed.

Lemma quit_is_last_answer_witness :
  let fs : store := {["1.txt" := "Hello"; "2.txt" := "Hi"]} in
  let s := {| conn_closed := false; state := TRANSACTION; username := "user";
              messages := ["Hello"; "Hi"]; deleted := ∅ |} in
  conn_closed s = false ∧
  command "quit" s = (Ok (), close s, ["+OK Goodbye"]) ∧
  ∃ s', recv_loop
          [Data (crlf_lines ["USER user"; "PASS pass"; "quit"; "STAT"]);
           Data (crlf_lines ["NOOP"])]
          "" (new_session fs)
        = (s', ["+OK User accepted"; "+OK Authenticated"; "+OK Goodbye"]) ∧
        conn_closed s' = true.
Proof.
  intros fs s.
  destruct (quit_is_last_answer s "quit" "quit" [] eq_refl eq_refl eq_refl)
    as [Hcommand Hloop].
  split; [reflexivity|]. split; [exact Hcommand|].
  apply (Hloop _ "" _ ["USER user"; "PASS pass"] ["STAT"] "" (new_session fs)
           ["+OK User accepted"; "+OK Authenticated"]);
    [reflexivity|discriminate|reflexivity|vm_compute; reflexivity].
Defined.

(** ** RETR *)

Lemma lacks_rev_app (c : ascii) (s t : string) :
  lacks c s → lacks c t → lacks c (String.rev_app s t).
Proof.
  revert t. induction s as [|c' s IH]; intros t Hs Ht; [exact Ht|].
  destruct Hs as [Hc Hs]. simpl. apply IH; [exact Hs|by split].
Qed.

Lemma splitlines_go_lacks (cur : string) (after_cr : bool) (b : string) :
  lacks Py.CR cur → lacks Py.LF cur →
  Forall (λ line, lacks Py.CR line ∧ lacks Py.LF line)
         (Py.splitlines_go cur after_cr b).
Proof.
  assert (Hrev : ∀ cur, lacks Py.CR cur → lacks Py.LF cur →
    lacks Py.CR (String.rev cur) ∧ lacks Py.LF (String.rev cur)).
  { intros cur' H1 H2. split; by apply lacks_rev_app. }
  revert cur after_cr. induction b as [|c b IH]; intros cur after_cr Hcr Hlf.
  - simpl. case_decide; [constructor|]. constructor; [by apply Hrev|constructor].
  - simpl. destruct (Ascii.eqb c Py.LF) eqn:Hc1.
    + destruct after_cr.
      * by apply IH.
      * constructor; [by apply Hrev|by apply IH].
    + destruct (Ascii.eqb c Py.CR) eqn:Hc2.
      * constructor; [by apply Hrev|by apply IH].
      * apply IH; split; try done.
        -- intros ->. by rewrite Ascii.eqb_refl in Hc2.
        -- intros ->. by rewrite Ascii.eqb_refl in Hc1.
Qed.

Lemma retr_dead (s : Pop3Session) (a0 : string) (args : list string) (n : Z) :
  conn_closed s = false → Py.int a0 = Some n → live s (n - 1) = false →
  handle_transaction "RETR" (a0 :: args) s
  = (Ok (), s, ["-ERR No such message"]).
Proof.
  intros Hopen Hn Hdead. unfold handle_transaction. simpl.
  rewrite (bind_ok_silent _ _ s a0) by reflexivity.
  rewrite (bind_ok_silent _ _ s n) by (by apply int_of_Some).
  rewrite get_bind, Hdead. by apply send_line_open.
Qed.

(** X7.  RETR with an index that parses: when the message is out of range
    or marked, the answer is [-ERR No such message]; otherwise, provided
    the lines of the message are well-formed UTF-8, the answer is the status
    line with the size of the message in bytes, the lines of the message in
    order, none of them with a CR or LF inside, and the terminator.  The
    session object is unchanged. *)
Theorem retr_sends_message (s : Pop3Session) (a0 : string)
    (args : list string) (n : Z) :
  phase s = Transaction →
  Py.int a0 = Some n →
  (live s (n - 1) = false →
   handle_transaction "RETR" (a0 :: args) s
   = (Ok (), s, ["-ERR No such message"])) ∧
  (∀ m, live s (n - 1) = true →
        messages s !! Z.to_nat (n - 1) = Some m →
        Forall (λ line, Py.utf8_valid line = true) (Py.splitlines m) →
        handle_transaction "RETR" (a0 :: args) s
        = (Ok (), s,
           ("+OK " +:+ Py.fmt (Py.len_str m) +:+ " octets")
           :: Py.splitlines m ++ ["."]) ∧
        Forall (λ line, lacks Py.CR line ∧ lacks Py.LF line)
               (Py.splitlines m)).
Proof.
  intros [Hopen _]%phase_Transaction Hn. split.
  - by apply retr_dead.
  - intros m Hlive Hm Hutf. split; [|by apply splitlines_go_lacks].
    unfold handle_transaction. simpl.
    rewrite (bind_ok_silent _ _ s a0) by reflexivity.
    rewrite (bind_ok_silent _ _ s n) by (by apply int_of_Some).
    rewrite get_bind, Hlive.
    rewrite (bind_ok_silent _ _ s m) by (by apply getitem_lookup).
    rewrite (bind_ok _ _ _ _ _ _ (send_line_open _ _ Hopen)).
    rewrite (bind_ok _ _ _ _ _ _ (send_decoded s _ Hopen Hutf)).
    rewrite send_line_open by exact Hopen. reflexivity.
Qed.

Lemma retr_sends_message_witness :
  let m := "Subject: hi" +:+ Py.CRLF +:+ Py.CRLF +:+ "Body1" +:+ Py.CRLF in
  let s := {| conn_closed := false; state := TRANSACTION; username := "user";
              messages := ["Hello"; m]; deleted := {[0]} |} in
  phase s = Transaction ∧
  handle_transaction "RETR" ["1"] s = (Ok (), s, ["-ERR No such message"]) ∧
  handle_transaction "RETR" ["2"] s
  = (Ok (), s, ["+OK 22 octets"; "Subject: hi"; ""; "Body1"; "."]).
Proof.
  intros m s. split; [reflexivity|]. split.
  - apply (proj1 (retr_sends_message s "1" [] 1 eq_refl eq_refl)).
    vm_compute. reflexivity.
  - apply (proj2 (retr_sends_message s "2" [] 2 eq_refl eq_refl) m).
    + vm_compute. reflexivity.
    + reflexivity.
    + vm_compute. repeat constructor.
Defined.

(** ** DELE *)

(** X8.  DELE with an index that parses: out of range,
    [n < 1] or [n > len(messages)], it answers [-ERR No such message] and
    changes nothing; in range it answers success and adds the mark, also
    when the message is already marked, so that a second DELE of the same
    message gives the same answer and the same session.  After it the
    message is not live: RETR of it answers [-ERR No such message]; the
    other messages are live exactly as before; and if the message was not
    marked, there is one mark more. *)
Theorem dele_marks_message (s : Pop3Session) (a0 : string)
    (args args' : list string) (n : Z) :
  phase s = Transaction →
  Py.int a0 = Some n →
  (¬ (1 ≤ n ≤ Py.len (messages s)) →
   handle_transaction "DELE" (a0 :: args) s
   = (Ok (), s, ["-ERR No such message"])) ∧
  (1 ≤ n ≤ Py.len (messages s) →
   let s1 := set_deleted ({[n - 1]} ∪ deleted s) s in
   let reply := "+OK Message " +:+ Py.fmt n +:+ " marked for deletion" in
   handle_transaction "DELE" (a0 :: args) s = (Ok (), s1, [reply]) ∧
   handle_transaction "DELE" (a0 :: args) s1 = (Ok (), s1, [reply]) ∧
   handle_transaction "RETR" (a0 :: args') s1
   = (Ok (), s1, ["-ERR No such message"]) ∧
   (∀ j, j ≠ n - 1 → live s1 j = live s j) ∧
   ((n - 1 ∉ deleted s) → size (deleted s1) = S (size (deleted s)))).
Proof.
  intros [Hopen _]%phase_Transaction Hn. split.
  - intros Hout. rewrite (dele_eval s a0 args n Hopen Hn).
    unfold in_range. rewrite bool_decide_eq_false_2 by lia. reflexivity.
  - intros Hin s1 reply.
    assert (Hreply : "+OK Message " +:+ Py.fmt (n - 1 + 1)
                     +:+ " marked for deletion" = reply).
    { unfold reply. by replace (n - 1 + 1) with n by lia. }
    assert (Hr : ∀ s', messages s' = messages s → in_range s' (n - 1) = true).
    { intros s' Hs'. unfold in_range. rewrite Hs'.
      apply bool_decide_eq_true. lia. }
    split; [|split; [|split; [|split]]].
    + rewrite (dele_eval s a0 args n Hopen Hn), (Hr s eq_refl), Hreply.
      reflexivity.
    + rewrite (dele_eval s1 a0 args n Hopen Hn), (Hr s1 eq_refl), Hreply.
      do 2 f_equal. unfold s1, set_deleted. simpl. f_equal. set_solver.
    + apply (retr_dead s1 a0 args' n Hopen Hn). unfold live.
      apply andb_false_iff. right. apply bool_decide_eq_false.
      intros Hout. apply Hout. simpl. set_solver.
    + intros j Hj. unfold live, in_range. simpl. f_equal.
      apply bool_decide_ext. set_solver.
    + intros Hfresh. simpl. rewrite size_union by set_solver.
      by rewrite size_singleton.
Qed.

Lemma dele_marks_message_witness :
  let s := {| conn_closed := false; state := TRANSACTION; username := "user";
              messages := ["Hello"; "Hi"]; deleted := ∅ |} in
  let s1 := set_deleted ({[1]} ∪ deleted s) s in
  phase s = Transaction ∧
  handle_transaction "DELE" ["0"] s = (Ok (), s, ["-ERR No such message"]) ∧
  handle_transaction "DELE" ["3"] s = (Ok (), s, ["-ERR No such message"]) ∧
  handle_transaction "DELE" ["2"] s
  = (Ok (), s1, ["+OK Message 2 marked for deletion"]) ∧
  handle_transaction "DELE" ["2"] s1
  = (Ok (), s1, ["+OK Message 2 marked for deletion"]).
Proof.
  intros s s1.
  assert (Hlen : Py.len (messages s) = 2) by reflexivity.
  split; [reflexivity|]. split; [|split].
  - apply (proj1 (dele_marks_message s "0" [] [] 0 eq_refl eq_refl)).
    rewrite Hlen. lia.
  - apply (proj1 (dele_marks_message s "3" [] [] 3 eq_refl eq_refl)).
    rewrite Hlen. lia.
  - assert (H : 1 ≤ 2 ≤ Py.len (messages s)) by (rewrite Hlen; lia).
    destruct (proj2 (dele_marks_message s "2" [] [] 2 eq_refl eq_refl) H)
      as (H1 & H2 & _).
    split; [exact H1|exact H2].
Defined.

(** ** Framing *)

Lemma str_app_nil_r (s : string) : s +:+ "" = s.
Proof. induction s as [|c s IH]; [reflexivity|]. by rewrite app_cons, IH. Qed.

Lemma str_app_assoc (s t u : string) : (s +:+ t) +:+ u = s +:+ (t +:+ u).
Proof. induction s as [|c s IH]; [reflexivity|]. by rewrite !app_cons, IH. Qed.

Lemma rev_app_app (s t u : string) :
  String.rev_app s t +:+ u = String.rev_app s (t +:+ u).
Proof.
  revert t. induction s as [|c s IH]; intros t; [reflexivity|].
  simpl. by rewrite IH, app_cons.
Qed.

Lemma rev_cons (c : ascii) (s : string) :
  String.rev (String c s) = String.rev s +:+ String c "".
Proof. unfold String.rev. simpl. by rewrite rev_app_app. Qed.

(** Induction on strings two characters at a time. *)
Lemma string_pair_ind (P : string → Prop) :
  P "" →
  (∀ c, P (String c "")) →
  (∀ c c' rest, P rest → P (String c' rest) → P (String c (String c' rest))) →
  ∀ s, P s.
Proof.
  intros H0 H1 H2 s.
  enough (P s ∧ ∀ c, P (String c s)) by tauto.
  induction s as [|c s [IH1 IH2]]; [by split|].
  split; [apply IH2|]. intros c0. by apply H2.
Qed.

Lemma prepend_nil (framed : list string * string) : prepend "" framed = framed.
Proof. by destruct framed as [[|line lines] residue]. Qed.

Lemma prepend_snoc (prefix : string) (c : ascii)
    (framed : list string * string) :
  prepend (prefix +:+ String c "") framed = prepend prefix (cons_first c framed).
Proof.
  destruct framed as [[|line lines] residue]; simpl;
    by rewrite str_app_assoc.
Qed.

Lemma frame_go_step (cur : string) (c c' : ascii) (rest : string) :
  frame_go cur (String c (String c' rest))
  = if Ascii.eqb c Py.CR && Ascii.eqb c' Py.LF
    then let '(lines, residue) := frame_go "" rest in
         (String.rev cur :: lines, residue)
    else frame_go (String c cur) (String c' rest).
Proof. reflexivity. Qed.

Lemma lines_of_step (c c' : ascii) (rest : string) :
  lines_of (String c (String c' rest))
  = if Ascii.eqb c Py.CR && Ascii.eqb c' Py.LF
    then let '(lines, residue) := lines_of rest in ("" :: lines, residue)
    else cons_first c (lines_of (String c' rest)).
Proof. reflexivity. Qed.

(** The loop with the accumulator computes [lines_of]. *)
Lemma frame_go_lines_of (buffer cur : string) :
  frame_go cur buffer = prepend (String.rev cur) (lines_of buffer).
Proof.
  revert cur. induction buffer as [|c|c c' rest IH1 IH2] using string_pair_ind;
    intros cur.
  - simpl. by rewrite str_app_nil_r.
  - simpl. by rewrite rev_cons.
  - rewrite frame_go_step, lines_of_step.
    destruct (Ascii.eqb c Py.CR && Ascii.eqb c' Py.LF).
    + rewrite IH1. change (String.rev "") with "". rewrite prepend_nil.
      destruct (lines_of rest) as [lines residue]. simpl.
      by rewrite str_app_nil_r.
    + rewrite IH2, rev_cons. apply prepend_snoc.
Qed.

Lemma frame_lines_of (buffer : string) : frame buffer = lines_of buffer.
Proof. unfold frame. rewrite frame_go_lines_of. apply prepend_nil. Qed.

Lemma lines_of_concat (buffer : string) :
  buffer = crlf_lines (lines_of buffer).1 +:+ (lines_of buffer).2.
Proof.
  induction buffer as [|c|c c' rest IH1 IH2] using string_pair_ind;
    [reflexivity..|].
  rewrite lines_of_step.
  destruct (Ascii.eqb c Py.CR && Ascii.eqb c' Py.LF) eqn:Hc.
  - apply andb_prop in Hc as [->%Ascii.eqb_eq ->%Ascii.eqb_eq].
    destruct (lines_of rest) as [lines residue]. simpl in *.
    rewrite app_nil. unfold Py.CRLF. rewrite !app_cons, app_nil.
    by rewrite <- IH1.
  - destruct (lines_of (String c' rest)) as [[|line lines] residue];
      simpl in *.
    + rewrite app_nil in *. by rewrite <- IH2.
    + rewrite !app_cons. f_equal. exact IH2.
Qed.



Lemma first_piece_cons (c : ascii) (rest : string) :
  first_piece (lines_of (String c rest)) = "" ∨
  ∃ tail, first_piece (lines_of (String c rest)) = String c tail.
Proof.
  destruct rest as [|c' rest'].
  - right. by exists "".
  - rewrite lines_of_step. destruct (_ && _).
    + left. by destruct (lines_of rest').
    + right. destruct (lines_of (String c' rest')) as [[|line lines] residue];
        by eexists.
Qed.

Lemma lines_of_no_crlf (buffer : string) :
  Forall no_crlf (lines_of buffer).1 ∧ no_crlf (lines_of buffer).2.
Proof.
  induction buffer as [|c|c c' rest IH1 IH2] using string_pair_ind.
  - by split.
  - split; [constructor|by split].
  - rewrite lines_of_step.
    destruct (Ascii.eqb c Py.CR && Ascii.eqb c' Py.LF) eqn:Hc.
    + destruct (lines_of rest) as [lines residue]. destruct IH1 as [IH1 IH1'].
      split; [by constructor|done].
    + assert (Hpair : ¬ (c = Py.CR ∧ c' = Py.LF)).
      { intros [-> ->]. discriminate. }
      assert (Hfirst := first_piece_cons c' rest).
      destruct (lines_of (String c' rest)) as [[|line lines] residue];
        simpl in *; destruct IH2 as [IH2 IH2'].
      * split; [constructor|].
        destruct Hfirst as [->|[tail ->]]; by split.
      * apply Forall_cons in IH2 as [Hline Hlines].
        split; [|done]. constructor; [|done].
        destruct Hfirst as [->|[tail ->]]; by split.
Qed.

Lemma lines_of_residue (residue : string) :
  no_crlf residue → lines_of residue = ([], residue).
Proof.
  induction residue as [|c|c c' rest IH1 IH2] using string_pair_ind;
    [reflexivity..|].
  intros [Hpair Hrest]. rewrite lines_of_step, (IH2 Hrest).
  destruct (Ascii.eqb c Py.CR && Ascii.eqb c' Py.LF) eqn:Hc; [|reflexivity].
  apply andb_prop in Hc as [->%Ascii.eqb_eq ->%Ascii.eqb_eq]. by destruct Hpair.
Qed.

Lemma lines_of_line (line buffer : string) :
  no_crlf line →
  lines_of (line +:+ Py.CRLF +:+ buffer)
  = (let '(lines, residue) := lines_of buffer in (line :: lines, residue)).
Proof.
  induction line as [|c line IH]; intros Hline.
  - rewrite app_nil. unfold Py.CRLF. rewrite !app_cons, app_nil.
    by rewrite lines_of_step.
  - destruct Hline as [Hpair Hline]. specialize (IH Hline).
    rewrite app_cons.
    assert (Hstep : lines_of (String c (line +:+ Py.CRLF +:+ buffer))
                    = cons_first c (lines_of (line +:+ Py.CRLF +:+ buffer))).
    { destruct line as [|c' line].
      - rewrite app_nil. unfold Py.CRLF. rewrite (app_cons Py.CR).
        rewrite lines_of_step.
        replace (Ascii.eqb Py.CR Py.LF) with false by reflexivity.
        by rewrite andb_false_r.
      - rewrite app_cons, lines_of_step.
        destruct (Ascii.eqb c Py.CR && Ascii.eqb c' Py.LF) eqn:Hc;
          [|reflexivity].
        apply andb_prop in Hc as [->%Ascii.eqb_eq ->%Ascii.eqb_eq].
        by destruct Hpair. }
    rewrite Hstep, IH. by destruct (lines_of buffer) as [lines residue].
Qed.

Lemma lines_of_join (lines : list string) (residue : string) :
  Forall no_crlf lines → no_crlf residue →
  lines_of (crlf_lines lines +:+ residue) = (lines, residue).
Proof.
  intros Hlines Hresidue. induction Hlines as [|line lines Hline _ IH].
  - simpl. rewrite app_nil. by apply lines_of_residue.
  - simpl. rewrite !str_app_assoc, lines_of_line, IH by done. reflexivity.
Qed.

(** X9.  The framing of the loop of [handle] is exact: [buffer] is split
    into [lines] and a rest if and only if [buffer] is the lines, each
    followed by CR LF, and then the rest, with no CR LF inside any line nor
    inside the rest.  So no byte is lost or made up, every line the client
    ended with CR LF comes out as it was sent, and what is kept for the
    next read holds no complete line. *)
Theorem framing_is_exact (buffer : string) (lines : list string) (rest : string) :
  frame buffer = (lines, rest)
  ↔ buffer = crlf_lines lines +:+ rest ∧ Forall no_crlf lines ∧ no_crlf rest.
Proof.
  rewrite frame_lines_of. split.
  - intros H. assert (H1 := lines_of_concat buffer).
    assert (H2 := lines_of_no_crlf buffer). rewrite H in H1, H2. by split.
  - intros (-> & Hlines & Hrest). by apply lines_of_join.
Qed.

Lemma framing_is_exact_witness :
  frame ("STAT" +:+ Py.CRLF +:+ String Py.CR "" +:+ Py.CRLF +:+ "DELE 1"
         +:+ String Py.CR "")
  = (["STAT"; String Py.CR ""], "DELE 1" +:+ String Py.CR "").
Proof.
  apply (proj2 (framing_is_exact _ ["STAT"; String Py.CR ""]
                  ("DELE 1" +:+ String Py.CR ""))).
  split; [reflexivity|]. split.
  - repeat constructor; intros [? ?]; discriminate.
  - vm_compute. repeat split; intros [? ?]; discriminate.
Defined.






(** ** The snapshot *)

Lemma StronglySorted_filter {A} (R : relation A) (P : A → Prop)
    `{∀ x, Decision (P x)} (l : list A) :
  StronglySorted R l → StronglySorted R (filter P l).
Proof.
  induction 1 as [|x l Hl IH Hx]; [constructor|].
  rewrite filter_cons. destruct (decide (P x)); [|exact IH].
  constructor; [exact IH|].
  rewrite Forall_forall in Hx |- *.
  intros y [_ Hy]%list_elem_of_filter. by apply Hx.
Qed.

Lemma sorted_listdir_elem (fs : store) (fname : string) :
  fname ∈ sorted_listdir fs ↔ is_Some (fs !! fname).
Proof.
  unfold sorted_listdir.
  by rewrite merge_sort_Permutation, elem_of_elements, elem_of_dom.
Qed.

Lemma load_messages_files (fs : store) (l : list string) :
  (∀ fname, fname ∈ l → is_Some (fs !! fname)) →
  Forall2 (λ fname m, fs !! fname = Some m)
    (filter (λ fname, Py.endswith fname ".txt" = true) l)
    (omap (λ fname, if Py.endswith fname ".txt" then fs !! fname else None) l).
Proof.
  induction l as [|fname l IH]; intros Hl; [constructor|].
  rewrite filter_cons. cbn [omap list_omap].
  specialize (IH (λ f Hf, Hl f (list_elem_of_further _ _ _ Hf))).
  destruct (Py.endswith fname ".txt") eqn:Htxt.
  - rewrite decide_True by done.
    destruct (Hl fname (list_elem_of_here _ _)) as [m Hm]. rewrite Hm. simpl.
    by constructor.
  - rewrite decide_False by done. exact IH.
Qed.

Lemma snapshot_files (fs : store) :
  Forall2 (λ fname m, fs !! fname = Some m) (mail_files fs) (load_messages fs) ∧
  StronglySorted String.le (mail_files fs).
Proof.
  split.
  - apply load_messages_files. intros fname. by rewrite sorted_listdir_elem.
  - apply StronglySorted_filter. unfold sorted_listdir.
    apply (StronglySorted_merge_sort String.le).
Qed.

(** X11.  The snapshot of a session is the content of the files of the
    directory whose name ends in [.txt], each of them once, in the
    ascending order of their names as strings; a file with another name is
    never part of it. *)
Theorem snapshot_is_txt_files_by_name (fs : store) :
  Forall2 (λ fname m, fs !! fname = Some m) (mail_files fs) (load_messages fs) ∧
  StronglySorted String.le (mail_files fs) ∧
  NoDup (mail_files fs) ∧
  ∀ fname, fname ∈ mail_files fs
           ↔ is_Some (fs !! fname) ∧ Py.endswith fname ".txt" = true.
Proof.
  destruct (snapshot_files fs) as [Hall Hsorted].
  split; [exact Hall|]. split; [exact Hsorted|]. split.
  - apply NoDup_filter. unfold sorted_listdir.
    rewrite merge_sort_Permutation. apply NoDup_elements.
  - intros fname. unfold mail_files.
    rewrite list_elem_of_filter, sorted_listdir_elem. tauto.
Qed.

Lemma reachable_snapshot (fs : store) (s : Pop3Session) :
  reachable fs s → messages s = load_messages fs ∧ marks_valid s.
Proof.
  induction 1 as [|s line _ [IH1 IH2]].
  - split; [reflexivity|apply new_session_valid].
  - destruct (command_safe line s) as [Hm Hv]. split; [congruence|auto].
Qed.

Lemma numbered_mail_files (n : nat) (fs : store) :
  (n ≤ 9)%nat → numbered n fs →
  mail_files fs = (λ i : nat, file_of (Z.of_nat i)) <$> seq 0 n.
Proof.
  intros Hn Hfs. unfold mail_files, sorted_listdir. rewrite Hfs. clear Hfs.
  do 10 (destruct n as [|n]; [vm_compute; reflexivity|]). lia.
Qed.

Lemma numbered_lookup (n : nat) (fs : store) (i : nat) :
  (n ≤ 9)%nat → numbered n fs → (i < n)%nat →
  is_Some (fs !! file_of (Z.of_nat i)) ∧
  load_messages fs !! i = fs !! file_of (Z.of_nat i).
Proof.
  intros Hn Hfs Hi.
  destruct (snapshot_files fs) as [Hall _].
  rewrite (numbered_mail_files n fs Hn Hfs) in Hall.
  eapply Forall2_lookup_l in Hall as (m & Hm & Hfile).
  2:{ rewrite list_lookup_fmap, lookup_seq_lt by done. reflexivity. }
  simpl in Hfile. rewrite Hfile, Hm. by split.
Qed.

(** X12.  When the directory holds exactly the files [1.txt], ...,
    [n.txt] with [n <= 9], message number [k] of the snapshot is the
    content of [k.txt], and whatever the client does, after the session the
    file [k.txt] is gone exactly when message [k] was marked at the end;
    every other mail file is as before and no file is added. *)
Theorem numbered_mailbox_commit (n : nat) (fs : store) (script : list recv) :
  (n ≤ 9)%nat →
  numbered n fs →
  let run := serve fs script in
  length (load_messages fs) = n ∧
  (∀ i : nat, (i < n)%nat →
     is_Some (load_messages fs !! i) ∧
     messages (session run) !! i = fs !! file_of (Z.of_nat i)) ∧
  (∀ i : Z, i ∈ deleted (session run) → 0 ≤ i < Z.of_nat n) ∧
  (∀ i : Z, mailbox run !! file_of i
            = if decide (i ∈ deleted (session run)) then None
              else fs !! file_of i) ∧
  dom (mailbox run) ⊆ dom fs.
Proof.
  intros Hn Hfs run.
  destruct (snapshot_files fs) as [Hall _].
  assert (Hlen : length (load_messages fs) = n).
  { apply Forall2_length in Hall. rewrite <- Hall.
    rewrite (numbered_mail_files n fs Hn Hfs).
    by rewrite length_fmap, length_seq. }
  destruct (serve_reachable fs script) as (s & Hs & Hclose).
  fold run in Hclose.
  destruct (reachable_snapshot fs s Hs) as [Hmsgs Hvalid].
  destruct (handle_commits_once script (new_session fs) fs eq_refl)
    as (_ & _ & Hcommit & _).
  fold (serve fs script) in Hcommit. fold run in Hcommit.
  assert (Hbox : mailbox run = after (cleanup_deleted (deleted (session run)) fs)).
  { by rewrite Hcommit. }
  split; [exact Hlen|]. split; [|split; [|split]].
  - intros i Hi. destruct (numbered_lookup n fs i Hn Hfs Hi) as [Hsome Hload].
    rewrite Hclose. simpl. rewrite Hmsgs, Hload. by split.
  - intros i Hi. rewrite Hclose in Hi. simpl in Hi.
    specialize (Hvalid i Hi). unfold Py.len in Hvalid.
    rewrite Hmsgs, Hlen in Hvalid. exact Hvalid.
  - intros i. rewrite Hbox, lookup_cleaned.
    destruct (decide (i ∈ deleted (session run))) as [Hin|Hout].
    + rewrite decide_True; [done|]. apply elem_of_files. by exists i.
    + rewrite decide_False; [done|].
      intros (j & Hj & ->%file_of_inj)%elem_of_files. done.
  - intros fname. rewrite !elem_of_dom, Hbox, lookup_cleaned.
    destruct (decide _); [by intros [? ?]|done].
Qed.

Lemma numbered_mailbox_commit_witness :
  let fs : store := {["1.txt" := "Hello"; "2.txt" := "Hi"]} in
  let run := serve fs [Data (crlf_lines
    ["USER user"; "PASS pass"; "DELE 2"]); Error] in
  numbered 2 fs ∧
  elements (deleted (session run)) = [1] ∧
  mailbox run !! "2.txt" = None ∧
  mailbox run !! "1.txt" = Some "Hello".
Proof.
  intros fs run.
  assert (Hfs : numbered 2 fs) by (vm_compute; reflexivity).
  assert (Hmark : elements (deleted (session run)) = [1])
    by (vm_compute; reflexivity).
  assert (Hn : (2 ≤ 9)%nat) by lia.
  destruct (numbered_mailbox_commit 2 fs
    [Data (crlf_lines ["USER user"; "PASS pass"; "DELE 2"]); Error] Hn Hfs)
    as (_ & _ & _ & Hbox & _).
  fold run in Hbox.
  split; [exact Hfs|]. split; [exact Hmark|]. split.
  - change (mailbox run !! file_of 1 = None).
    rewrite (Hbox 1), decide_True; [reflexivity|].
    apply elem_of_elements. rewrite Hmark. by left.
  - change (mailbox run !! file_of 0 = Some "Hello").
    rewrite (Hbox 0), decide_False; [reflexivity|].
    rewrite <- elem_of_elements, Hmark. by intros ?%list_elem_of_singleton.
Defined.

(** ** The listings by index *)

Lemma enumerate_from_indices (pre l : list string) :
  Py.enumerate_from (Py.len pre) l
  = (λ i, (i, default "" ((pre ++ l) !! Z.to_nat i))) <$>
    seqZ (Py.len pre) (Py.len l).
Proof.
  revert pre. induction l as [|x l IH]; intros pre; [reflexivity|].
  cbn [Py.enumerate_from].
  rewrite seqZ_cons by (unfold Py.len; simpl; lia).
  rewrite fmap_cons. f_equal.
  - f_equal. unfold Py.len. rewrite Nat2Z.id.
    by rewrite list_lookup_middle.
  - specialize (IH (pre ++ [x])). rewrite <- app_assoc in IH. simpl in IH.
    replace (Py.len (pre ++ [x])) with (Py.len pre + 1) in IH
      by (unfold Py.len; rewrite length_app; simpl; lia).
    rewrite IH. f_equal. f_equal; unfold Py.len; simpl; lia.
Qed.

Lemma enumerate_indices (l : list string) :
  Py.enumerate l
  = (λ i, (i, default "" (l !! Z.to_nat i))) <$> seqZ 0 (Py.len l).
Proof. apply (enumerate_from_indices [] l). Qed.

Lemma filter_indexed {B} (P : Z → Prop) `{∀ i, Decision (P i)}
    (g : Z → B) (l : list Z) :
  filter (λ im : Z * B, P im.1) ((λ i, (i, g i)) <$> l)
  = (λ i, (i, g i)) <$> filter P l.
Proof.
  induction l as [|i l IH]; [reflexivity|].
  rewrite fmap_cons, !filter_cons. simpl.
  destruct (decide (P i)); by rewrite IH.
Qed.

Lemma listing_by_index {B} (s : Pop3Session) (entry : Z * string → B) :
  entry <$> filter (λ im : Z * string, im.1 ∉ deleted s)
                   (Py.enumerate (messages s))
  = (λ i, entry (i, default "" (messages s !! Z.to_nat i))) <$>
    unmarked_indices s.
Proof.
  rewrite enumerate_indices.
  assert (H := filter_indexed (λ i, i ∉ deleted s)
    (λ i, default "" (messages s !! Z.to_nat i))
    (seqZ 0 (Py.len (messages s)))).
  cbv beta in H. rewrite H. by rewrite <- list_fmap_compose.
Qed.

Lemma pretty_N_go_head (x : N) (s : string) :
  (0 < x)%N →
  ∃ c tail, pretty_N_go x s = String c tail ∧ c ≠ "0"%char.
Proof.
  revert s. induction (N.lt_wf_0 x) as [x _ IH]; intros s Hx.
  rewrite pretty_N_go_step by done.
  destruct (decide (x `div` 10 = 0)%N) as [Hsmall|Hbig].
  - rewrite Hsmall, pretty_N_go_0. eexists _, _. split; [reflexivity|].
    apply N.div_small_iff in Hsmall; [|done].
    rewrite N.mod_small by done.
    assert (x = 1 ∨ x = 2 ∨ x = 3 ∨ x = 4 ∨ x = 5 ∨ x = 6 ∨ x = 7 ∨ x = 8
            ∨ x = 9)%N as Hcases by lia.
    repeat (destruct Hcases as [->|Hcases]; [discriminate|]).
    subst. discriminate.
  - apply IH.
    + apply N.div_lt; [done|reflexivity].
    + by apply N.neq_0_lt_0.
Qed.

Lemma fmt_head (z : Z) :
  0 < z → ∃ c tail, Py.fmt z = String c tail ∧ c ≠ "0"%char.
Proof.
  intros Hz. destruct z as [|p|p]; try lia.
  unfold Py.fmt, pretty, pretty_Z, pretty, pretty_positive, pretty, pretty_N.
  rewrite decide_False by done. by apply pretty_N_go_head.
Qed.

Lemma zeros_inj (k k' : nat) (d d' : string) :
  (∃ c tail, d = String c tail ∧ c ≠ "0"%char) →
  (∃ c tail, d' = String c tail ∧ c ≠ "0"%char) →
  Py.zeros k +:+ d = Py.zeros k' +:+ d' → d = d'.
Proof.
  intros (c & tail & -> & Hc) (c' & tail' & -> & Hc').
  revert k'. induction k as [|k IH]; intros [|k']; simpl;
    rewrite ?app_nil, ?app_cons; intros Heq.
  - exact Heq.
  - injection Heq as -> _. done.
  - injection Heq as <- _. done.
  - injection Heq as Heq. by apply IH in Heq.
Qed.

Lemma uid_inj (i j : Z) : 0 ≤ i → 0 ≤ j → uid i = uid j → i = j.
Proof.
  intros Hi Hj Heq. unfold uid in Heq.
  apply (inj (String.app "UID")) in Heq. unfold Py.fmt_04d in Heq.
  rewrite !(proj2 (Z.ltb_ge _ 0)) in Heq by lia.
  rewrite !app_nil, !Z.abs_eq in Heq by lia.
  apply zeros_inj in Heq; [|apply fmt_head; lia..].
  apply (inj pretty) in Heq. lia.
Qed.

(** X13.  UIDL in the Transaction phase: the listing has one line
    [<k> <id>] for each message number [k] without a mark, in ascending
    order; the form with an index answers [+OK <k> <id>] with the same id
    for a message in range and without a mark; the id depends on nothing
    but the message number; and two messages of a snapshot never have the
    same id. *)
Theorem uidl_ids_are_unique (s : Pop3Session) :
  phase s = Transaction →
  handle_transaction "UIDL" [] s
  = (Ok (), s,
     "+OK unique-id listing follows"
     :: ((λ i, Py.fmt (i + 1) +:+ " " +:+ uid i) <$> unmarked_indices s)
     ++ ["."]) ∧
  (∀ a0 args n,
     Py.int a0 = Some n → live s (n - 1) = true →
     handle_transaction "UIDL" (a0 :: args) s
     = (Ok (), s, ["+OK " +:+ Py.fmt n +:+ " " +:+ uid (n - 1)])) ∧
  (∀ i j, 0 ≤ i → 0 ≤ j → uid i = uid j → i = j).
Proof.
  intros [Hopen _]%phase_Transaction. split; [|split].
  - rewrite (uidl_all_eval s Hopen). do 3 f_equal.
    apply (listing_by_index s
      (λ im, Py.fmt (im.1 + 1) +:+ " " +:+ "UID" +:+ Py.fmt_04d (im.1 + 1))).
  - intros a0 args n Hn Hlive.
    rewrite (uidl_one_eval s a0 args n Hopen Hn), Hlive.
    unfold uid. by replace (n - 1 + 1) with n by lia.
  - apply uid_inj.
Qed.

Lemma uidl_ids_are_unique_witness :
  let s := {| conn_closed := false; state := TRANSACTION; username := "user";
              messages := ["Hello"; "Hi"; "Bye"]; deleted := {[1]} |} in
  phase s = Transaction ∧
  handle_transaction "UIDL" [] s
  = (Ok (), s, ["+OK unique-id listing follows"; "1 UID0001"; "3 UID0003"; "."]) ∧
  handle_transaction "UIDL" ["3"] s = (Ok (), s, ["+OK 3 UID0003"]).
Proof.
  intros s. destruct (uidl_ids_are_unique s eq_refl) as (Hall & Hone & _).
  split; [reflexivity|]. split.
  - rewrite Hall. vm_compute. reflexivity.
  - rewrite (Hone "3" [] 3) by (vm_compute; reflexivity). reflexivity.
Defined.

(** X14.  LIST in the Transaction phase: the status line gives the number
    of messages of the snapshot, the marked ones included; then comes one
    line [<k> <size>] for each message number [k] without a mark, in
    ascending order, [size] being the length of the message in bytes; and
    the form with an index answers [+OK] followed by the same
    [<k> <size>] for a message in range and without a mark. *)
Theorem list_sizes_by_number (s : Pop3Session) :
  phase s = Transaction →
  handle_transaction "LIST" [] s
  = (Ok (), s,
     ("+OK " +:+ Py.fmt (Py.len (messages s)) +:+ " messages")
     :: ((λ i, Py.fmt (i + 1) +:+ " " +:+ Py.fmt (size_of s i))
         <$> unmarked_indices s)
     ++ ["."]) ∧
  (∀ a0 args n,
     Py.int a0 = Some n → live s (n - 1) = true →
     handle_transaction "LIST" (a0 :: args) s
     = (Ok (), s,
        ["+OK " +:+ Py.fmt n +:+ " " +:+ Py.fmt (size_of s (n - 1))])).
Proof.
  intros [Hopen _]%phase_Transaction. split.
  - rewrite (list_all_eval s Hopen). do 3 f_equal.
    apply (listing_by_index s
      (λ im, Py.fmt (im.1 + 1) +:+ " " +:+ Py.fmt (Py.len_str im.2))).
  - intros a0 args n Hn Hlive.
    rewrite (list_one_eval s a0 args n Hopen Hn), Hlive.
    unfold size_of. by replace (n - 1 + 1) with n by lia.
Qed.

Lemma list_sizes_by_number_witness :
  let s := {| conn_closed := false; state := TRANSACTION; username := "user";
              messages := ["Hello"; "Hi"; "Bye"]; deleted := {[1]} |} in
  phase s = Transaction ∧
  handle_transaction "LIST" [] s
  = (Ok (), s, ["+OK 3 messages"; "1 5"; "3 3"; "."]) ∧
  handle_transaction "LIST" ["3"] s = (Ok (), s, ["+OK 3 3"]).
Proof.
  intros s. destruct (list_sizes_by_number s eq_refl) as (Hall & Hone).
  split; [reflexivity|]. split.
  - rewrite Hall. vm_compute. reflexivity.
  - rewrite (Hone "3" [] 3) by (vm_compute; reflexivity). reflexivity.
Defined.

(** ** Every command is answered *)

Lemma silent_bind {A B} (m : M A) (f : A → M B) :
  silent m → (∀ a, silent (f a)) → silent (m ≫= f).
Proof.
  intros Hm Hf s Hs. destruct (Hm s Hs) as [Hout Hopen].
  rewrite output_bind, after_bind. destruct (result_of (m s)) as [a|e]; [|done].
  destruct (Hf a _ Hopen) as [Hout' Hopen']. by rewrite Hout, Hout'.
Qed.

Lemma silent_ret {A} (a : A) : silent (mret a : M A).
Proof. by intros s Hs. Qed.

Lemma silent_raise {A} (e : exn) : silent (raise e : M A).
Proof. by intros s Hs. Qed.

Lemma silent_getitem {A} (l : list A) (i : Z) : silent (getitem l i : M A).
Proof.
  unfold getitem. destruct (l !! Z.to_nat i); [apply silent_ret|apply silent_raise].
Qed.

Lemma silent_int_of (tok : string) : silent (int_of tok : M Z).
Proof. unfold int_of. destruct (Py.int tok); [apply silent_ret|apply silent_raise]. Qed.

Lemma silent_set_deleted (d : gset Z) : silent (modify (set_deleted d)).
Proof. by intros s Hs. Qed.

Lemma answers_silent_bind {A B} (m : M A) (f : A → M B) :
  silent m → (∀ a, answers (f a)) → answers (m ≫= f).
Proof.
  intros Hm Hf s Hs. destruct (Hm s Hs) as [Hout Hopen].
  rewrite bind_eval. destruct (m s) as [[[a|e] s1] out1]; [|done].
  unfold output, after, result_of in *. simpl in *. subst out1.
  specialize (Hf a s1 Hopen). destruct (f a s1) as [[[b|e] s2] out2]; done.
Qed.

Lemma answers_get_bind {B} (f : Pop3Session → M B) :
  (∀ s, answers (f s)) → answers (get ≫= f).
Proof. intros Hf s Hs. rewrite get_bind. by apply Hf. Qed.

Lemma answers_send_line (status : string) :
  is_status status = true → answers (send_line status).
Proof. intros Hstatus s Hs. rewrite send_line_open by done. by eexists _, _. Qed.

Lemma answers_send_line_then {B} (status : string) (k : M B) :
  is_status status = true → answers (send_line status ;; k).
Proof.
  intros Hstatus s Hs.
  rewrite (bind_ok _ _ _ _ _ _ (send_line_open _ _ Hs)).
  destruct (k s) as [[[b|e] s1] out1]; [|done]. by eexists _, _.
Qed.

Ltac answers_auto :=
  repeat first
    [ apply answers_send_line; reflexivity
    | apply answers_send_line_then; reflexivity
    | apply answers_get_bind; intros ?
    | apply answers_silent_bind;
        [first [apply silent_getitem | apply silent_int_of
               | apply silent_set_deleted]
        |intros ?]
    | match goal with
      | |- answers (if ?b then _ else _) => destruct b
      | |- answers (match ?x with _ => _ end) => destruct x
      | |- answers (let '(_, _) := ?x in _) => destruct x
      end ].

Lemma handle_transaction_answers (cmd : string) (args : list string) :
  answers (handle_transaction cmd args).
Proof. unfold handle_transaction. repeat case_decide; answers_auto. Qed.

Lemma handle_auth_answers (cmd : string) (args : list string) :
  answers (handle_auth cmd args).
Proof. unfold handle_auth. repeat case_decide; answers_auto. Qed.

Lemma handle_auth_returns (cmd : string) (args : list string) (s : Pop3Session) :
  conn_closed s = false →
  ∃ s' status, handle_auth cmd args s = (Ok (), s', [status]).
Proof.
  intros Hopen. unfold handle_auth, conn_close.
  repeat case_decide; rewrite ?get_bind.
  - destruct args as [|a0 args].
    + rewrite send_line_open by done. by eexists _, _.
    + destruct (bool_decide _).
      * rewrite (bind_ok _ _ _ _ _ _ (send_line_open _ _ Hopen)). by eexists _, _.
      * rewrite send_line_open by done. by eexists _, _.
  - destruct args as [|a0 args].
    + rewrite send_line_open by done. by eexists _, _.
    + destruct (_ && _).
      * rewrite (bind_ok _ _ _ _ _ _ (send_line_open _ _ Hopen)). by eexists _, _.
      * rewrite send_line_open by done. by eexists _, _.
  - rewrite (bind_ok _ _ _ _ _ _ (send_line_open _ _ Hopen)). by eexists _, _.
  - rewrite send_line_open by done. by eexists _, _.
Qed.

(** X15.  On an open connection every command that returns has been
    answered: the lines it sent start with a status line, [+OK ...] or
    [-ERR ...].  In the Auth handler every command returns, whatever its
    name and arguments, and its answer is that one line. *)
Theorem commands_are_answered (s : Pop3Session) (cmd : string)
    (args : list string) :
  conn_closed s = false →
  (∀ s' out,
     handle_transaction cmd args s = (Ok (), s', out) →
     ∃ status rest, out = status :: rest ∧ is_status status = true) ∧
  (∃ s' status,
     handle_auth cmd args s = (Ok (), s', [status]) ∧
     is_status status = true).
Proof.
  intros Hopen. split.
  - intros s' out Heval.
    assert (H := handle_transaction_answers cmd args s Hopen).
    by rewrite Heval in H.
  - destruct (handle_auth_returns cmd args s Hopen) as (s' & status & Heval).
    exists s', status. split; [exact Heval|].
    assert (H := handle_auth_answers cmd args s Hopen).
    rewrite Heval in H. destruct H as (st & rest & [= <- <-] & Hst). exact Hst.
Qed.

Lemma commands_are_answered_witness :
  let s := {| conn_closed := false; state := TRANSACTION; username := "user";
              messages := ["Hello"; "Hi"]; deleted := ∅ |} in
  conn_closed s = false ∧
  handle_transaction "CAPA" [] s = (Ok (), s, ["-ERR Command not supported"]) ∧
  (∃ status rest,
     ["-ERR Command not supported"] = status :: rest ∧
     is_status status = true) ∧
  ∃ s' status,
    handle_auth "CAPA" [] s = (Ok (), s', [status]) ∧ is_status status = true.
Proof.
  intros s.
  destruct (commands_are_answered s "CAPA" [] eq_refl) as [Htrans Hauth].
  split; [reflexivity|]. split; [reflexivity|]. split; [|exact Hauth].
  apply (Htrans s). reflexivity.
Defined.

(** ** How the connection ends *)



(** ** Blank lines *)

Lemma command_blank (line : string) (s : Pop3Session) :
  Py.strip line = "" → command line s = (Ok (), s, []).
Proof. intros H. unfold command. by rewrite H. Qed.

(** X17.  A line that is empty or made of blanks only gets no answer and
    changes nothing, so the lines of a read are handled as if the blank ones
    were not there. *)
Theorem blank_lines_are_skipped (lines : list string) (s : Pop3Session) :
  (∀ line, Py.strip line = "" → command line s = (Ok (), s, [])) ∧
  for_each lines command s
  = for_each (filter (λ line, Py.strip line ≠ "") lines) command s.
Proof.
  split; [intros line; apply command_blank|].
  revert s. induction lines as [|line lines IH]; intros s; [reflexivity|].
  rewrite filter_cons.
  destruct (decide (Py.strip line ≠ "")) as [Hline|Hblank].
  - cbn [for_each]. rewrite !bind_eval.
    destruct (command line s) as [[[[]|e] s'] out]; [|done]. by rewrite IH.
  - apply dec_stable in Hblank. cbn [for_each].
    rewrite (bind_ok_silent _ _ s ()) by (by apply command_blank). apply IH.
Qed.

Lemma blank_lines_are_skipped_witness :
  let s := {| conn_closed := false; state := TRANSACTION; username := "user";
              messages := ["Hello"; "Hi"]; deleted := ∅ |} in
  Py.strip "  " = "" ∧
  command "  " s = (Ok (), s, []) ∧
  for_each [""; "STAT"; "  "; "NOOP"] command s
  = (Ok (), s, ["+OK 2 7"; "+OK"]).
Proof.
  intros s.
  destruct (blank_lines_are_skipped [""; "STAT"; "  "; "NOOP"] s)
    as [Hblank Heq].
  split; [reflexivity|]. split; [by apply Hblank|].
  rewrite Heq. vm_compute. reflexivity.
Defined.

(** ** Commits *)

(** X18.  Commits compose: committing the marks [d1] and then the marks
    [d2] leaves the directory as one commit of all of them does, in either
    order. *)
Theorem commits_compose (d1 d2 : gset Z) (fs : store) :
  after (cleanup_deleted d2 (after (cleanup_deleted d1 fs)))
  = after (cleanup_deleted (d1 ∪ d2) fs) ∧
  after (cleanup_deleted d2 (after (cleanup_deleted d1 fs)))
  = after (cleanup_deleted d1 (after (cleanup_deleted d2 fs))).
Proof.
  assert (H : ∀ d d', after (cleanup_deleted d' (after (cleanup_deleted d fs)))
                      = after (cleanup_deleted (d ∪ d') fs)).
  { intros d d'. apply map_eq. intros fname. rewrite !lookup_cleaned.
    destruct (decide (fname ∈ file_of <$> sorted_reverse d')) as [H2|H2];
      destruct (decide (fname ∈ file_of <$> sorted_reverse d)) as [H1|H1];
      destruct (decide (fname ∈ file_of <$> sorted_reverse (d ∪ d')))
        as [H3|H3]; try done; exfalso.
    all: rewrite elem_of_files in H1, H2, H3; set_solver. }
  split; [apply H|]. by rewrite !H, (comm_L (∪) d1 d2).
Qed.

(** ** STAT and the listing *)





(** ** Lines after QUIT *)

(** X20.  QUIT closes the connection but does not leave the loop, so the
    lines that follow it in the same read are still handled.  A DELE among
    them, with an index in range, adds its mark before its answer fails on
    the closed connection: nothing is sent for it, the loop ends there, and
    the mark is part of the session that is committed. *)
Theorem dele_after_quit_still_marks (s : Pop3Session)
    (quit dele q0 d0 a0 : string) (qargs args lines : list string) (n : Z) :
  conn_closed s = false →
  state s = TRANSACTION →
  Py.split (Py.strip quit) = q0 :: qargs →
  Py.upper q0 = "QUIT" →
  Py.split (Py.strip dele) = d0 :: a0 :: args →
  Py.upper d0 = "DELE" →
  Py.int a0 = Some n →
  1 ≤ n ≤ Py.len (messages s) →
  for_each (quit :: dele :: lines) command s
  = (Raise OSError, set_deleted ({[n - 1]} ∪ deleted s) (close s),
     ["+OK Goodbye"]).
Proof.
  intros Hopen Hstate Hquit Hq Hdele Hd Hn Hrange.
  assert (H1 : command quit s = (Ok (), close s, ["+OK Goodbye"])).
  { rewrite (command_eval s quit q0 qargs Hquit), Hq, Hstate.
    by apply quit_eval. }
  assert (H2 : command dele (close s)
    = (Raise OSError, set_deleted ({[n - 1]} ∪ deleted s) (close s), [])).
  { rewrite (command_eval _ dele d0 (a0 :: args) Hdele), Hd. simpl.
    rewrite Hstate. unfold handle_transaction. simpl.
    rewrite (bind_ok_silent _ _ (close s) a0) by reflexivity.
    rewrite (bind_ok_silent _ _ (close s) n) by (by apply int_of_Some).
    rewrite get_bind.
    assert (in_range (close s) (n - 1) = true) as ->.
    { apply bool_decide_eq_true. simpl. lia. }
    rewrite bind_eval. reflexivity. }
  cbn [for_each]. rewrite (bind_ok _ _ _ _ _ _ H1).
  by rewrite (bind_raise _ _ _ _ _ _ H2).
Qed.

Lemma dele_after_quit_still_marks_witness :
  let fs : store := {["1.txt" := "Hello"; "2.txt" := "Hi"]} in
  let s := {| conn_closed := false; state := TRANSACTION; username := "user";
              messages := ["Hello"; "Hi"]; deleted := ∅ |} in
  let run := serve fs [Data (crlf_lines
    ["USER user"; "PASS pass"; "QUIT"; "DELE 2"; "STAT"])] in
  conn_closed s = false ∧
  for_each ["QUIT"; "DELE 2"; "STAT"] command s
  = (Raise OSError, set_deleted ({[1]} ∪ ∅) (close s), ["+OK Goodbye"]) ∧
  sent run = ["+OK POP3 server ready"; "+OK User accepted";
              "+OK Authenticated"; "+OK Goodbye"] ∧
  mailbox run !! "2.txt" = None.
Proof.
  intros fs s run. split; [reflexivity|]. split.
  - apply (dele_after_quit_still_marks s "QUIT" "DELE 2" "QUIT" "DELE" "2"
             [] [] ["STAT"] 2); try reflexivity.
    unfold Py.len. simpl. lia.
  - split; vm_compute; reflexivity.
Defined.
